(** * The A2A server generator: output normalisation, schema validation
      and the request handler

    A shallow embedding of [src/lib/openai_action.ts] (the generation
    pipeline), of the route handler [POST] of the generate-python
    endpoint and of the handlers of the page that calls it, with the
    properties their specification states and further properties read
    off the code.

    Conventions of the embedding.
    - A JavaScript string is its sequence of UTF-16 code units, a list
      of [N]; literals are written with [lit] and [jlit].
    - A JavaScript value that came out of [JSON.parse] is a [json]; an
      object is a finite map from property names to values, so that
      equality of [json] is deep structural equality regardless of the
      order of the keys.  [undefined] is the [None] of [option json].
    - A number is kept as the exact decimal [m * 10^e] its literal denotes;
      the rounding to binary64 is not modelled and no property below
      depends on it.
    - The model service, the runtime's [ToString] and the archive library
      are external: they are parameters of the functions that use them,
      and every call to the model service is recorded in a log. *)

From Stdlib Require Import ZArith NArith Ascii String DecimalString.
From stdpp Require Import gmap list fin_maps.

#[local] Set Warnings "-register-all".
#[local] Open Scope N_scope.

(** ** Strings as sequences of code units

    The code units that the program and the JSON grammar name: 34 the
    double quote, 44 the comma, 58 the colon, 91 and 93 the brackets,
    92 the backslash, 96 the backtick, 123 and 125 the braces; 9, 10, 13
    and 32 are tab, line feed, carriage return and space. *)

Abbreviation jsstring := (list N).

Definition lit (s : string) : jsstring :=
  map N_of_ascii (list_ascii_of_string s).

(** [jlit] reads an apostrophe as a double quote, to write JSON texts. *)
Definition jlit (s : string) : jsstring :=
  map (fun c => if c =? 39 then 34 else c) (lit s).

(** WhiteSpace and LineTerminator of ECMAScript: what [\s] matches and
    what [String.prototype.trim] removes. *)
Definition is_line_terminator (c : N) : bool :=
  (c =? 10) || (c =? 13) || (c =? 0x2028) || (c =? 0x2029).

Definition is_white (c : N) : bool :=
  (c =? 9) || (c =? 11) || (c =? 12) || (c =? 32) || (c =? 0xA0)
  || (c =? 0x1680) || ((0x2000 <=? c) && (c <=? 0x200A))
  || (c =? 0x202F) || (c =? 0x205F) || (c =? 0x3000) || (c =? 0xFEFF)
  || is_line_terminator c.

Fixpoint drop_white (s : jsstring) : jsstring :=
  match s with
  | c :: r => if is_white c then drop_white r else s
  | [] => []
  end.

Definition trim (s : jsstring) : jsstring :=
  rev (drop_white (rev (drop_white s))).

(** [Array.prototype.join] on strings. *)
Fixpoint join (sep : jsstring) (l : list jsstring) : jsstring :=
  match l with
  | [] => []
  | [x] => x
  | x :: r => x ++ sep ++ join sep r
  end.

(** ** [stripCodeFences] *)

Definition backtick : N := 96.

(** Case-insensitive comparison with an ASCII letter given in lower case
    (flag [i] without flag [u]: only the ASCII upper-case form folds to
    it). *)
Definition eq_nocase (lower c : N) : bool :=
  (c =? lower) || (c =? lower - 32).

(** [(?:json)?] *)
Definition skip_json_tag (s : jsstring) : jsstring :=
  match s with
  | j :: s' :: o :: n :: r =>
      if eq_nocase 106 j && eq_nocase 115 s' && eq_nocase 111 o
         && eq_nocase 110 n
      then r else s
  | _ => s
  end.

(** [s.replace(/^```(?:json)?\s*/i, "")]: every quantifier is greedy and
    nothing follows it, so no backtracking takes place. *)
Definition strip_open_fence (s : jsstring) : jsstring :=
  match s with
  | a :: b :: c :: r =>
      if (a =? backtick) && (b =? backtick) && (c =? backtick)
      then drop_white (skip_json_tag r) else s
  | _ => s
  end.

(** [s.replace(/```$/i, "")]: without flag [m], [$] is the end of the
    input only. *)
Definition strip_close_fence (s : jsstring) : jsstring :=
  match rev s with
  | a :: b :: c :: r =>
      if (a =? backtick) && (b =? backtick) && (c =? backtick)
      then rev r else s
  | _ => s
  end.

Definition stripCodeFences (s : jsstring) : jsstring :=
  trim (strip_close_fence (strip_open_fence s)).

(** ** JSON values *)

Inductive json : Type :=
| JNull
| JBool (b : bool)
| JNum (m e : Z)
| JStr (s : jsstring)
| JArr (l : list json)
| JObj (o : gmap jsstring json).

(** ToBoolean, for [!x], [x && y] and [x || y]. *)
Definition truthy (v : json) : bool :=
  match v with
  | JNull => false
  | JBool b => b
  | JNum m _ => negb (m =? 0)%Z
  | JStr s => match s with [] => false | _ => true end
  | JArr _ | JObj _ => true
  end.

Definition truthy_opt (v : option json) : bool :=
  match v with Some x => truthy x | None => false end.

(** [x.k] for the property names read in this program: only an object
    that is not an array can carry them. *)
Definition get_prop (v : json) (k : jsstring) : option json :=
  match v with
  | JObj o => o !! k
  | _ => None
  end.

(** [typeof x === "string"] *)
Definition is_string (v : option json) : bool :=
  match v with Some (JStr _) => true | _ => false end.

Definition k_files : jsstring := Eval cbv in lit "files".
Definition k_path : jsstring := Eval cbv in lit "path".
Definition k_content : jsstring := Eval cbv in lit "content".

(** ** [JSON.parse]

    The JSON grammar of ECMA-404 as [JSON.parse] reads it: insignificant
    white space is tab, line feed, carriage return and space; a string
    holds no raw code unit below 32; a duplicated key keeps its last
    value. *)

Definition is_json_ws (c : N) : bool :=
  (c =? 9) || (c =? 10) || (c =? 13) || (c =? 32).

Fixpoint skip_ws (s : jsstring) : jsstring :=
  match s with
  | c :: r => if is_json_ws c then skip_ws r else s
  | [] => []
  end.

Definition hex_val (c : N) : option N :=
  if (48 <=? c) && (c <=? 57) then Some (c - 48)
  else if (97 <=? c) && (c <=? 102) then Some (c - 87)
  else if (65 <=? c) && (c <=? 70) then Some (c - 55)
  else None.

Definition hex4 (a b c d : N) : option N :=
  x ← hex_val a; y ← hex_val b; z ← hex_val c; w ← hex_val d;
  Some (4096 * x + 256 * y + 16 * z + w).

(** The single-character escapes. *)
Definition unescape (e : N) : option N :=
  if e =? 34 then Some 34 else if e =? 92 then Some 92
  else if e =? 47 then Some 47 else if e =? 98 then Some 8
  else if e =? 102 then Some 12 else if e =? 110 then Some 10
  else if e =? 114 then Some 13 else if e =? 116 then Some 9
  else None.

(** The characters of a string after its opening quote: the decoded
    string and what follows the closing quote. *)
Fixpoint parse_chars (s : jsstring) : option (jsstring * jsstring) :=
  match s with
  | [] => None
  | c :: r =>
      if c =? 34 then Some ([], r)
      else if c =? 92 then
        match r with
        | [] => None
        | e :: r1 =>
            if e =? 117 then
              match r1 with
              | h1 :: h2 :: h3 :: h4 :: r2 =>
                  u ← hex4 h1 h2 h3 h4;
                  '(str, rest) ← parse_chars r2;
                  Some (u :: str, rest)
              | _ => None
              end
            else
              u ← unescape e;
              '(str, rest) ← parse_chars r1;
              Some (u :: str, rest)
        end
      else if c <? 32 then None
      else '(str, rest) ← parse_chars r; Some (c :: str, rest)
  end.

Definition is_digit (c : N) : bool := (48 <=? c) && (c <=? 57).

Fixpoint take_digits (s : jsstring) : list N * jsstring :=
  match s with
  | c :: r =>
      if is_digit c
      then let '(ds, r') := take_digits r in (c - 48 :: ds, r')
      else ([], s)
  | [] => ([], [])
  end.

Definition digits_val (ds : list N) : Z :=
  fold_left (fun acc d => 10 * acc + Z.of_N d)%Z ds 0%Z.

Definition some_digits (s : jsstring) : option (list N * jsstring) :=
  match take_digits s with
  | ([], _) => None
  | p => Some p
  end.

Definition parse_int_part (s : jsstring) : option (list N * jsstring) :=
  match s with
  | c :: r => if c =? 48 then Some ([0], r) else some_digits s
  | [] => None
  end.

Definition parse_frac (s : jsstring) : option (list N * jsstring) :=
  match s with
  | c :: r => if c =? 46 then some_digits r else Some ([], s)
  | [] => Some ([], s)
  end.

Definition parse_sign (s : jsstring) : bool * jsstring :=
  match s with
  | c :: r =>
      if c =? 45 then (true, r) else if c =? 43 then (false, r)
      else (false, s)
  | [] => (false, s)
  end.

Definition parse_exp (s : jsstring) : option (Z * jsstring) :=
  match s with
  | c :: r =>
      if (c =? 101) || (c =? 69) then
        let '(neg, r1) := parse_sign r in
        '(ds, r2) ← some_digits r1;
        Some ((if neg then - digits_val ds else digits_val ds)%Z, r2)
      else Some (0%Z, s)
  | [] => Some (0%Z, s)
  end.

Definition parse_number (s : jsstring) : option (json * jsstring) :=
  let '(neg, s1) :=
    match s with
    | c :: r => if c =? 45 then (true, r) else (false, s)
    | [] => (false, s)
    end in
  '(ip, s2) ← parse_int_part s1;
  '(fp, s3) ← parse_frac s2;
  '(ex, s4) ← parse_exp s3;
  let m := digits_val (ip ++ fp) in
  Some (JNum (if neg then - m else m)%Z (ex - Z.of_nat (length fp))%Z, s4).

Fixpoint strip_prefix (p s : jsstring) : option jsstring :=
  match p, s with
  | [], _ => Some s
  | a :: p', b :: s' => if a =? b then strip_prefix p' s' else None
  | _ :: _, [] => None
  end.

Definition parse_literal (s : jsstring) : option (json * jsstring) :=
  match strip_prefix (lit "true") s with
  | Some r => Some (JBool true, r)
  | None =>
      match strip_prefix (lit "false") s with
      | Some r => Some (JBool false, r)
      | None =>
          match strip_prefix (lit "null") s with
          | Some r => Some (JNull, r)
          | None => parse_number s
          end
      end
  end.

(** The members of an object after its opening brace, and the elements
    of an array after its opening bracket; [value] parses one value and
    [k] bounds the number of members or elements read. *)
Fixpoint parse_members (value : jsstring -> option (json * jsstring))
    (k : nat) (s : jsstring) (acc : gmap jsstring json)
  : option (json * jsstring) :=
  match k with
  | O => None
  | S k' =>
      match skip_ws s with
      | q :: s1 =>
          if q =? 34 then
            '(key, s2) ← parse_chars s1;
            match skip_ws s2 with
            | colon :: s3 =>
                if colon =? 58 then
                  '(v, s4) ← value s3;
                  match skip_ws s4 with
                  | d :: s5 =>
                      if d =? 44
                      then parse_members value k' s5 (<[key:=v]> acc)
                      else if d =? 125
                      then Some (JObj (<[key:=v]> acc), s5)
                      else None
                  | [] => None
                  end
                else None
            | [] => None
            end
          else None
      | [] => None
      end
  end.

Fixpoint parse_elements (value : jsstring -> option (json * jsstring))
    (k : nat) (s : jsstring) (acc : list json)
  : option (json * jsstring) :=
  match k with
  | O => None
  | S k' =>
      '(v, s1) ← value s;
      match skip_ws s1 with
      | d :: s2 =>
          if d =? 44 then parse_elements value k' s2 (v :: acc)
          else if d =? 93 then Some (JArr (rev (v :: acc)), s2)
          else None
      | [] => None
      end
  end.

(** One value, after optional white space.  The fuel bounds the nesting
    depth and the number of members of one object or array; more fuel
    than the input has code units is always enough, since every step of
    either kind consumes one ([parse_value_fuel] below). *)
Fixpoint parse_value (fuel : nat) (s : jsstring) : option (json * jsstring) :=
  match fuel with
  | O => None
  | S n =>
      match skip_ws s with
      | [] => None
      | c :: r =>
          if c =? 123 then
            match skip_ws r with
            | [] => None
            | c1 :: r1 =>
                if c1 =? 125 then Some (JObj ∅, r1)
                else parse_members (parse_value n) n r ∅
            end
          else if c =? 91 then
            match skip_ws r with
            | [] => None
            | c1 :: r1 =>
                if c1 =? 93 then Some (JArr [], r1)
                else parse_elements (parse_value n) n r []
            end
          else if c =? 34 then
            '(str, rest) ← parse_chars r; Some (JStr str, rest)
          else parse_literal (c :: r)
      end
  end.

Definition JSON_parse (text : jsstring) : option json :=
  match parse_value (S (length text)) text with
  | Some (v, rest) =>
      match skip_ws rest with
      | [] => Some v
      | _ :: _ => None
      end
  | None => None
  end.

(** ** [JSON.stringify] on an object of strings

    [JSON.stringify(O, null, space)] for an object [O] whose values are
    all strings; [props] lists the own properties of [O] in enumeration
    order.  [QuoteJSONString] escapes the quote, the backslash, the code
    units below 32 and the surrogates that have no partner. *)

Definition hex_digit (d : N) : N := if d <? 10 then 48 + d else 87 + d.

Definition unicode_escape (c : N) : jsstring :=
  [92; 117; hex_digit (c / 4096 mod 16); hex_digit (c / 256 mod 16);
   hex_digit (c / 16 mod 16); hex_digit (c mod 16)].

Definition is_lead_surrogate (c : N) : bool :=
  (0xD800 <=? c) && (c <=? 0xDBFF).
Definition is_trail_surrogate (c : N) : bool :=
  (0xDC00 <=? c) && (c <=? 0xDFFF).

Definition escape_short (c : N) : option N :=
  if c =? 8 then Some 98 else if c =? 9 then Some 116
  else if c =? 10 then Some 110 else if c =? 12 then Some 102
  else if c =? 13 then Some 114 else if c =? 34 then Some 34
  else if c =? 92 then Some 92 else None.

Fixpoint quote_chars (s : jsstring) : jsstring :=
  match s with
  | [] => []
  | c :: r =>
      match escape_short c with
      | Some e => 92 :: e :: quote_chars r
      | None =>
          if c <? 32 then unicode_escape c ++ quote_chars r
          else if is_lead_surrogate c then
            match r with
            | d :: r' =>
                if is_trail_surrogate d then c :: d :: quote_chars r'
                else unicode_escape c ++ quote_chars r
            | [] => unicode_escape c
            end
          else if is_trail_surrogate c then unicode_escape c ++ quote_chars r
          else c :: quote_chars r
      end
  end.

Definition QuoteJSONString (s : jsstring) : jsstring :=
  34 :: quote_chars s ++ [34].

Definition JSON_stringify (space : nat) (props : list (jsstring * jsstring))
  : jsstring :=
  let gap := repeat 32 (Nat.min space 10) in
  match props with
  | [] => [123; 125]
  | _ :: _ =>
      match gap with
      | [] =>
          [123]
          ++ join [44]
               (map (fun p => QuoteJSONString p.1 ++ [58] ++ QuoteJSONString p.2)
                  props)
          ++ [125]
      | _ :: _ =>
          [123; 10]
          ++ join [44; 10]
               (map (fun p => gap ++ QuoteJSONString p.1 ++ [58; 32]
                              ++ QuoteJSONString p.2) props)
          ++ [10; 125]
      end
  end.

(** The object whose properties are [props]. *)
Definition object_of (props : list (jsstring * jsstring)) : json :=
  JObj (JStr <$> (list_to_map props : gmap jsstring jsstring)).

(** ** Errors

    Every exception the pipeline can end with, named after the place
    that throws it, and the error kind of the specification it stands
    for. *)

Inductive error : Type :=
| ClientError (reason : jsstring)   (* responses.create rejected *)
| EmptyModelOutput                  (* "Empty model output" *)
| FailedToParseJSON                 (* "Failed to parse JSON from model output" *)
| JSONSyntaxError                   (* thrown by JSON.parse(m[0]) *)
| ZodError                          (* thrown by Schema.parse *)
| InvalidFilesArray                 (* "Model output missing or invalid 'files' array" *)
| TypeError                         (* a property read on null or undefined *)
| ArchiveError (reason : jsstring). (* generateAsync rejected *)

Inductive error_kind : Type :=
| InputError
| ModelInvocationError
| NormalizationError
| SchemaError
| PackagingError.

Definition kind_of (e : error) : option error_kind :=
  match e with
  | ClientError _ | EmptyModelOutput => Some ModelInvocationError
  | FailedToParseJSON | JSONSyntaxError => Some NormalizationError
  | ZodError | InvalidFilesArray => Some SchemaError
  | ArchiveError _ => Some PackagingError
  | TypeError => None
  end.

Abbreviation result A := (error + A)%type.

(** ** The Zod schema

    The fragment of Zod the program uses: [z.string()], [z.array(s)]
    with [.min(n)], and [z.object(shape)] in its default mode, which
    drops the keys that are not in the shape.  [zparse] returns the
    parsed copy, or [None] where Zod reports an issue; it is given
    [None] for a key that is absent. *)

Inductive schema : Type :=
| ZString
| ZArray (element : schema) (min : nat)
| ZObject (shape : list (jsstring * schema)).

Fixpoint zparse (sc : schema) (v : option json) : option json :=
  match sc with
  | ZString =>
      match v with
      | Some (JStr s) => Some (JStr s)
      | _ => None
      end
  | ZArray element min =>
      match v with
      | Some (JArr l) =>
          l' ← mapM (fun x => zparse element (Some x)) l;
          if (min <=? List.length l)%nat then Some (JArr l') else None
      | _ => None
      end
  | ZObject shape =>
      match v with
      | Some (JObj o) =>
          JObj <$>
            (fix fields (sh : list (jsstring * schema))
               : option (gmap jsstring json) :=
               match sh with
               | [] => Some ∅
               | (k, s) :: rest =>
                   x ← zparse s (o !! k);
                   m ← fields rest;
                   Some (<[k:=x]> m)
               end) shape
      | _ => None
      end
  end.

(** [z.object({ files: z.array(z.object({ path: z.string(),
    content: z.string() })).min(2) })] *)
Definition StructuredA2AServerOutputSchema : schema :=
  ZObject
    [(k_files,
      ZArray (ZObject [(k_path, ZString); (k_content, ZString)]) 2)].

(** [schema.parse(v)]: the parsed copy, or a thrown [ZodError]. *)
Definition schema_parse (sc : schema) (v : json) : result json :=
  match zparse sc (Some v) with
  | Some r => inr r
  | None => inl ZodError
  end.

(** ** [coerceServerShape] *)

(** The objects [{ path: p, content: c }] and [{ files: l }]. *)
Definition file_entry (p c : json) : json :=
  JObj (<[k_path:=p]> (<[k_content:=c]> ∅)).

Definition files_object (l : list json) : json :=
  JObj (<[k_files:=JArr l]> ∅).

(** [f && typeof f.path === "string" && typeof f.content === "string"] *)
Definition keep_entry (f : json) : bool :=
  truthy f && is_string (get_prop f k_path)
  && is_string (get_prop f k_content).

(** [({ path: f.path, content: f.content })], on an entry that passed
    the filter. *)
Definition project_entry (f : json) : json :=
  file_entry (default JNull (get_prop f k_path))
    (default JNull (get_prop f k_content)).

Definition coerceServerShape (parsed : json) : result json :=
  match parsed with
  | JObj o =>
      match o !! k_files with
      | Some (JArr l) =>
          let files := map project_entry (filter (fun f => keep_entry f = true) l) in
          if (2 <=? List.length files)%nat
          then inr (files_object files)
          else inl InvalidFilesArray
      | _ => inl InvalidFilesArray
      end
  | _ => inl InvalidFilesArray
  end.

(** ** The fallback extraction: [raw.match(/\{[\s\S]*\}$/m)]

    With flag [m], [$] holds at the end of the input and before a line
    terminator.  The matcher tries the start positions from the left; at
    an opening brace the greedy [[\s\S]*] takes everything and gives
    back code units until a closing brace at a line end is found. *)

Definition at_line_end (s : jsstring) : bool :=
  match s with
  | [] => true
  | c :: _ => is_line_terminator c
  end.

(** The longest prefix of [s] that ends with a closing brace at a line
    end. *)
Fixpoint upto_last_close (s : jsstring) : option jsstring :=
  match s with
  | [] => None
  | c :: r =>
      match upto_last_close r with
      | Some p => Some (c :: p)
      | None => if (c =? 125) && at_line_end r then Some [c] else None
      end
  end.

Fixpoint match_brace_block (s : jsstring) : option jsstring :=
  match s with
  | [] => None
  | c :: r =>
      if c =? 123 then
        match upto_last_close r with
        | Some p => Some (c :: p)
        | None => match_brace_block r
        end
      else match_brace_block r
  end.

(** Lines 295 to 303 of [generatePythonA2AServer]: from the text of the
    model to the parsed value. *)
Definition normalize (text : jsstring) : result json :=
  let raw := stripCodeFences text in
  match JSON_parse raw with
  | Some parsed => inr parsed
  | None =>
      match match_brace_block raw with
      | None => inl FailedToParseJSON
      | Some m0 =>
          match JSON_parse m0 with
          | Some parsed => inr parsed
          | None => inl JSONSyntaxError
          end
      end
  end.

(** ** The model service *)

Record params : Type := {
  agentDescription : option json;
  services : option json;
  model : option json;
  reasoningEffort : option json
}.

Record request : Type := {
  req_model : json;
  req_instructions : jsstring;
  req_input : jsstring;
  req_effort : json;
  req_format : option schema    (* response_format, on responses.parse *)
}.

Inductive call : Type :=
| ResponsesParse (r : request)
| ResponsesCreate (r : request).

(** The reply of [responses.create], as far as the code reads it: each
    level may be absent, and the text of a fragment is a string or an
    object with a [value]. *)
Inductive fragment_text : Type :=
| TextString (s : jsstring)
| TextObject (value : option jsstring).

Record fragment : Type := { text : option fragment_text }.

Record output_item : Type := { content : option (list (option fragment)) }.

Record create_response : Type := {
  output_text : option jsstring;
  output : option (list (option output_item))
}.

(** The client: [responses_parse] answers [None] when the call throws
    or yields no reply to read, and [Some p] with [p] the [parsed] field
    of the reply otherwise;
    [responses_create] answers the reason it rejected with, or the reply
    (which may be null). *)
Record client : Type := {
  responses_parse : request -> option (option json);
  responses_create : request -> jsstring + option create_response
}.

(** [x || d] and [x ?? d] *)
Definition or_else (x : option json) (d : json) : json :=
  match x with
  | Some v => if truthy v then v else d
  | None => d
  end.

Definition nullish_else (x : option json) (d : json) : json :=
  match x with
  | Some JNull | None => d
  | Some v => v
  end.

(** [c?.text?.value ?? c?.text ?? ""], then its conversion to a string
    by [join]: an object without a [value] is kept and prints as
    [[object Object]]. *)
Definition fragment_value (c : option fragment) : jsstring :=
  match c with
  | None => []
  | Some f =>
      match text f with
      | None => []
      | Some (TextString s) => s
      | Some (TextObject (Some v)) => v
      | Some (TextObject None) => lit "[object Object]"
      end
  end.

(** [resp?.output?.flatMap((o) => o?.content ?? []) ?? []] *)
Definition contents_of (resp : option create_response)
  : list (option fragment) :=
  match resp with
  | None => []
  | Some r =>
      match output r with
      | None => []
      | Some items =>
          concat (map (fun o : option output_item =>
                         match o with
                         | None => []
                         | Some i => default [] (content i)
                         end) items)
      end
  end.

Definition nonempty (s : jsstring) : bool :=
  match s with [] => false | _ :: _ => true end.

(** [resp?.output_text ?? contents.map(...).filter(Boolean).join("\n")] *)
Definition text_of (resp : option create_response) : jsstring :=
  match resp ≫= output_text with
  | Some s => s
  | None =>
      join [10]
        (filter (fun s => nonempty s = true)
           (map fragment_value (contents_of resp)))
  end.

(** ** [generatePythonA2AServer] *)

Section Pipeline.

(** The instruction template, the conversion of a template literal and
    [JSON.stringify(x, null, 2)] on an arbitrary value. *)
Variable systemPrompt : jsstring.
Variable ToString : json -> jsstring.
Variable stringify_pretty : json -> jsstring.

Variable cl : client.

Definition userPrompt (p : params) : jsstring :=
  join [10; 10]
    [ lit "Agent Description:" ++ [10]
        ++ ToString (or_else (agentDescription p)
                       (JStr (lit "(none provided)")));
      lit "Services:" ++ [10]
        ++ stringify_pretty (nullish_else (services p) (JObj ∅));
      jlit "Output ONLY: {'files':[{'path':'...','content':'...'}]}" ].

Definition parse_request (p : params) : request :=
  {| req_model := or_else (model p) (JStr (lit "gpt-5"));
     req_instructions := systemPrompt;
     req_input := userPrompt p;
     req_effort := or_else (reasoningEffort p) (JStr (lit "minimal"));
     req_format := Some StructuredA2AServerOutputSchema |}.

Definition create_request (p : params) : request :=
  {| req_model := or_else (model p) (JStr (lit "gpt-5"));
     req_instructions := systemPrompt;
     req_input := userPrompt p;
     req_effort := or_else (reasoningEffort p) (JStr (lit "minimal"));
     req_format := None |}.

(** The body of the [catch]: the free-text path. *)
Definition free_text_path (p : params) : list call * result json :=
  let log := [ResponsesCreate (create_request p)] in
  match responses_create cl (create_request p) with
  | inl reason => (log, inl (ClientError reason))
  | inr resp =>
      let text := text_of resp in
      if nonempty text then
        match normalize text with
        | inl e => (log, inl e)
        | inr parsed =>
            (log, schema_parse StructuredA2AServerOutputSchema parsed)
        end
      else (log, inl EmptyModelOutput)
  end.

(** The whole function: the calls made to the service, in order, and
    the value returned or the exception thrown. *)
Definition generatePythonA2AServer (p : params) : list call * result json :=
  let first := ResponsesParse (parse_request p) in
  match responses_parse cl (parse_request p) with
  | Some (Some parsed) =>
      if truthy parsed then ([first], inr parsed)
      else let '(log, r) := free_text_path p in (first :: log, r)
  | Some None | None =>
      let '(log, r) := free_text_path p in (first :: log, r)
  end.

End Pipeline.

(** ** The route handler [POST] *)

Record http_request : Type := {
  body : option json;            (* req.json(); None when it rejects *)
  zip_query : option jsstring    (* req.nextUrl.searchParams.get("zip") *)
}.

Inductive response_body : Type :=
| TextBody (s : jsstring)
| JsonBody (v : json)
| BytesBody (bytes : list N).

Record response : Type := {
  status : N;
  headers : list (jsstring * jsstring);
  payload : response_body
}.

(** [String(n)] on a length. *)
Definition decimal (n : N) : jsstring :=
  lit (DecimalString.NilZero.string_of_uint (N.to_uint n)).

(** The iteration of a string by [for ... of]: by code point. *)
Fixpoint code_points (s : jsstring) : list jsstring :=
  match s with
  | [] => []
  | c :: r =>
      if is_lead_surrogate c then
        match r with
        | d :: r' =>
            if is_trail_surrogate d then [c; d] :: code_points r'
            else [c] :: code_points r
        | [] => [[c]]
        end
      else [c] :: code_points r
  end.

Definition k_agentDescription : jsstring := Eval cbv in lit "agentDescription".
Definition k_services : jsstring := Eval cbv in lit "services".
Definition k_model : jsstring := Eval cbv in lit "model".
Definition k_reasoningEffort : jsstring := Eval cbv in lit "reasoningEffort".

Definition bad_request : response :=
  {| status := 400; headers := [];
     payload := TextBody (lit "agentDescription required") |}.

(** [Response.json(result)] *)
Definition json_response (v : json) : response :=
  {| status := 200;
     headers := [(lit "content-type", lit "application/json")];
     payload := JsonBody v |}.

Definition zip_response (content : list N) : response :=
  {| status := 200;
     headers :=
       [ (lit "Content-Type", lit "application/zip");
         (lit "Content-Disposition",
          jlit "attachment; filename='a2a-python-server.zip'");
         (lit "Content-Length", decimal (N.of_nat (List.length content)));
         (lit "Cache-Control", lit "no-store");
         (lit "Accept-Ranges", lit "bytes") ];
     payload := BytesBody content |}.

Section Route.

Variable systemPrompt : jsstring.
Variable ToString : json -> jsstring.
Variable stringify_pretty : json -> jsstring.
Variable cl : client.

(** The archive library: a new archive, [zip.file(name, data)] as a
    state change, and [zip.generateAsync] with the options of the
    handler, which yields the buffer or rejects. *)
Variable JSZip : Type.
Variable new_JSZip : JSZip.
Variable zip_file : JSZip -> option json -> option json -> JSZip.
Variable generateAsync : JSZip -> jsstring + list N.

(** [for (const f of files) zip.file(f.path, f.content)] on an array. *)
Fixpoint add_entries (zip : JSZip) (l : list json) : result JSZip :=
  match l with
  | [] => inr zip
  | JNull :: _ => inl TypeError
  | f :: r =>
      add_entries (zip_file zip (get_prop f k_path) (get_prop f k_content)) r
  end.

(** The same loop on whatever [result.files] is: an array, a string
    (iterated by code point, each without [path] and [content]), or a
    value that cannot be iterated. *)
Definition add_files (zip : JSZip) (res : json) : result JSZip :=
  match get_prop res k_files with
  | Some (JArr l) => add_entries zip l
  | Some (JStr s) => add_entries zip (map JStr (code_points s))
  | _ => inl TypeError
  end.

Definition POST (req : http_request) : list call * result response :=
  match default (JObj ∅) (body req) with
  | JNull => ([], inl TypeError)    (* destructuring null *)
  | b =>
      let agent := get_prop b k_agentDescription in
      if negb (truthy_opt agent) then ([], inr bad_request)
      else
        let '(log, r) :=
          generatePythonA2AServer systemPrompt ToString stringify_pretty cl
            {| agentDescription := agent;
               services := get_prop b k_services;
               model := get_prop b k_model;
               reasoningEffort := get_prop b k_reasoningEffort |} in
        match r with
        | inl e => (log, inl e)
        | inr res =>
            if negb (from_option nonempty false (zip_query req))
            then (log, inr (json_response res))
            else
              match add_files new_JSZip res with
              | inl e => (log, inl e)
              | inr zip =>
                  match generateAsync zip with
                  | inl reason => (log, inl (ArchiveError reason))
                  | inr content => (log, inr (zip_response content))
                  end
              end
        end
  end.

End Route.

(** * Notions of the specification *)


(** A well-formed file entry: an object whose [path] and [content] are
    both strings. *)
Definition well_formed_entry (f : json) : Prop :=
  exists o p c,
    f = JObj o /\ o !! k_path = Some (JStr p) /\ o !! k_content = Some (JStr c).

(** A GeneratedFile: exactly the two fields. *)
Definition generated_file (f : json) : Prop :=
  exists p c, f = file_entry (JStr p) (JStr c).

(** A GenerationResult: exactly the field [files], at least two
    GeneratedFiles in it. *)
Definition generation_result (v : json) : Prop :=
  exists fs,
    v = files_object fs /\ (2 <= List.length fs)%nat
    /\ Forall generated_file fs.

Definition file_schema : schema :=
  ZObject [(k_path, ZString); (k_content, ZString)].


(** One member of a serialized object: white space, the key, a colon,
    white space and the value. *)
Definition member_text (w1 w2 : jsstring) (p : jsstring * jsstring) : jsstring :=
  w1 ++ QuoteJSONString p.1 ++ [58] ++ w2 ++ QuoteJSONString p.2.

(** The object that results from defining the properties in turn. *)
Definition define_all (props : list (jsstring * jsstring))
    (acc : gmap jsstring json) : gmap jsstring json :=
  fold_left (fun m p => <[p.1:=JStr p.2]> m) props acc.

(** The tag of an opening fence: none, or [json] in any letter case. *)
Definition json_tag (tag : jsstring) : bool :=
  match tag with
  | [] => true
  | [j; s; o; n] =>
      eq_nocase 106 j && eq_nocase 115 s && eq_nocase 111 o && eq_nocase 110 n
  | _ => false
  end.

Definition fence : jsstring := [backtick; backtick; backtick].

(** A text between an opening fence with its tag and a closing fence,
    with white space inside the fences. *)
Definition fenced (tag w1 w2 text : jsstring) : jsstring :=
  fence ++ tag ++ w1 ++ text ++ w2 ++ fence.

(** The structured call failed: it threw, or its reply carries no
    parsed value (absent or falsy). *)
Definition structured_failed (cl : client) (r : request) : bool :=
  match responses_parse cl r with
  | Some (Some parsed) => negb (truthy parsed)
  | Some None | None => true
  end.


(** ** Examples *)

Definition entry_main : json :=
  file_entry (JStr (lit "main.py")) (JStr (lit "print(1)")).
Definition entry_readme : json :=
  file_entry (JStr (lit "README.md")) (JStr (lit "hello")).
(** An entry without [content]. *)
Definition entry_broken : json :=
  JObj (<[k_path:=JStr (lit ".env.example")]> ∅).
(** An entry with a field too many. *)
Definition entry_extra : json :=
  JObj (<[lit "mode":=JNum 420 0]>
          (<[k_path:=JStr (lit "README.md")]>
             (<[k_content:=JStr (lit "hello")]> ∅))).

Definition mixed_text : jsstring :=
  jlit "{'files':[{'path':'main.py','content':'print(1)'},{'path':'.env.example'},{'path':'README.md','content':'hello'}]}".

(** A service whose structured call throws and whose free-text call
    answers [text] in [output_text]. *)
Definition free_text_client (text : jsstring) : client :=
  {| responses_parse := fun _ => None;
     responses_create := fun _ =>
       inr (Some {| output_text := Some text; output := None |}) |}.

(** A service whose structured call answers [parsed]. *)
Definition structured_client (parsed : json) : client :=
  {| responses_parse := fun _ => Some (Some parsed);
     responses_create := fun _ => inl (lit "unused") |}.

Definition echo_params : params :=
  {| agentDescription := Some (JStr (lit "Echo agent"));
     services := None; model := None; reasoningEffort := None |}.

(** Stand-ins for the runtime's conversions where an example runs the
    pipeline: the text of the prompt plays no part in its result. *)
Definition show_string (v : json) : jsstring :=
  match v with JStr s => s | _ => [] end.
Definition show_none (v : json) : jsstring := lit "{}".


Definition payload_text : jsstring :=
  jlit "{'files':[{'path':'main.py','content':'print(1)'},{'path':'README.md','content':'hello'}]}".

(** ** Further notions and examples *)

(** The parameters the handler passes to the pipeline, read from the
    body of the request. *)
Definition request_params (b : json) : params :=
  {| agentDescription := get_prop b k_agentDescription;
     services := get_prop b k_services;
     model := get_prop b k_model;
     reasoningEffort := get_prop b k_reasoningEffort |}.

(** The archive was asked for: the [zip] parameter is present and not
    empty. *)
Definition wants_zip (req : http_request) : bool :=
  from_option nonempty false (zip_query req).

(** The calls of [zip.file] for a sequence of files. *)
Definition zip_all {JSZip : Type}
    (zip_file : JSZip -> option json -> option json -> JSZip)
    (fs : list json) (zip : JSZip) : JSZip :=
  fold_left (fun z f => zip_file z (get_prop f k_path) (get_prop f k_content))
    fs zip.

(** The parameters with every default of [generatePythonA2AServer]
    written out. *)
Definition with_defaults (p : params) : params :=
  {| agentDescription :=
       Some (or_else (agentDescription p) (JStr (lit "(none provided)")));
     services := Some (nullish_else (services p) (JObj ∅));
     model := Some (or_else (model p) (JStr (lit "gpt-5")));
     reasoningEffort :=
       Some (or_else (reasoningEffort p) (JStr (lit "minimal"))) |}.

(** A reply whose [output_text] is empty although a fragment has text. *)
Definition hidden_text_client : client :=
  {| responses_parse := fun _ => None;
     responses_create := fun _ =>
       inr (Some {| output_text := Some [];
                    output :=
                      Some [Some {| content :=
                        Some [Some {| text := Some (TextString payload_text) |}]
                      |}] |}) |}.

Definition echo_body : json :=
  JObj (<[k_agentDescription:=JStr (lit "Echo agent")]> ∅).

(** A stand-in for the archive library: the archive is the list of the
    calls of [file], the buffer has one byte for each. *)
Definition list_zip_file (z : list (option json * option json))
    (name data : option json) : list (option json * option json) :=
  z ++ [(name, data)].
Definition list_generate (z : list (option json * option json))
  : jsstring + list N :=
  inr (repeat 0%N (List.length z)).

(** ** The page: [buildServices], [onPreviewJSON], [onDownloadZIP]

    The state of the component is a record; a handler is a function
    from the state it was created in to the events it causes, in order,
    and the state after its updates.  [fetch], the reading of a reply's
    body, [URL.createObjectURL] and [JSON.stringify] on the request
    body are the browser's and are parameters. *)

Module Page.

Inductive effort : Type := minimal | medium | high.

Definition effort_string (e : effort) : jsstring :=
  match e with
  | minimal => lit "minimal"
  | medium => lit "medium"
  | high => lit "high"
  end.

Record state : Type := {
  agentDescription : jsstring;
  webSearch : bool;
  extraServices : jsstring;
  model : jsstring;
  reasoningEffort : effort;
  busy : bool;
  result : json;                 (* null until a preview succeeds *)
  error : option jsstring
}.

(** The first render: the arguments of the [useState] calls. *)
Definition initial : state :=
  {| agentDescription := lit "Echo agent that repeats user text.";
     webSearch := false;
     extraServices := lit "{}";
     model := lit "gpt-5";
     reasoningEffort := minimal;
     busy := false;
     result := JNull;
     error := None |}.

Definition setBusy (b : bool) (st : state) : state :=
  {| agentDescription := agentDescription st; webSearch := webSearch st;
     extraServices := extraServices st; model := model st;
     reasoningEffort := reasoningEffort st;
     busy := b; result := result st; error := error st |}.

Definition setResult (v : json) (st : state) : state :=
  {| agentDescription := agentDescription st; webSearch := webSearch st;
     extraServices := extraServices st; model := model st;
     reasoningEffort := reasoningEffort st;
     busy := busy st; result := v; error := error st |}.

Definition setError (e : option jsstring) (st : state) : state :=
  {| agentDescription := agentDescription st; webSearch := webSearch st;
     extraServices := extraServices st; model := model st;
     reasoningEffort := reasoningEffort st;
     busy := busy st; result := result st; error := e |}.

Definition k_web_search : jsstring := Eval cbv in lit "web_search".

(** The own enumerable properties that [{ ...v }] copies: those of an
    object, the indices of an array or of a string, none of a number, a
    boolean or null. *)
Definition spread (v : json) : gmap jsstring json :=
  match v with
  | JObj o => o
  | JArr l => list_to_map (imap (fun i x => (decimal (N.of_nat i), x)) l)
  | JStr s =>
      list_to_map (imap (fun i c => (decimal (N.of_nat i), JStr [c])) s)
  | JNull | JBool _ | JNum _ _ => ∅
  end.

Definition invalid_services : jsstring :=
  lit "Extra services must be valid JSON".

(** [buildServices]: the services object, or the message of the error
    thrown.  In [{ web_search: webSearch, ...extra }] a property of
    [extra] comes after, and so replaces, [web_search]. *)
Definition buildServices (st : state) : jsstring + json :=
  if nonempty (trim (extraServices st)) then
    match JSON_parse (extraServices st) with
    | Some extra =>
        inr (JObj (spread extra ∪ {[k_web_search := JBool (webSearch st)]}))
    | None => inl invalid_services
    end
  else inr (JObj {[k_web_search := JBool (webSearch st)]}).

(** A thrown value as far as [e?.message || fallback] reads it. *)
Definition message_or (m : option jsstring) (fallback : jsstring) : jsstring :=
  match m with
  | Some (c :: s) => c :: s
  | Some [] | None => fallback
  end.

Record fetch_request : Type := {
  url : jsstring;
  method : jsstring;
  content_type : jsstring;
  request_body : jsstring
}.

(** A reply: [ok], and what [text()] and [blob()] resolve to, or the
    message of what they reject with. *)
Record fetch_response : Type := {
  ok : bool;
  read_text : option jsstring + jsstring;
  read_blob : option jsstring + list N
}.

Inductive event : Type :=
| Fetched (r : fetch_request)
| ObjectURLCreated (blob : list N)
| AnchorAppended
| AnchorClicked (href download : jsstring)
| AnchorRemoved
| ObjectURLRevoked (u : jsstring).

Section Handlers.

(** [fetch] rejects with a message or resolves to a reply;
    [syntax_message] is the message of the error [res.json()] rejects
    with on a body that is not JSON. *)
Variable fetch : fetch_request -> option jsstring + fetch_response.
Variable JSON_stringify_value : json -> jsstring.
Variable createObjectURL : list N -> jsstring.
Variable syntax_message : jsstring.

(** [JSON.stringify({ agentDescription, services, model,
    reasoningEffort })] *)
Definition request_text (st : state) (services : json) : jsstring :=
  JSON_stringify_value
    (JObj (<[k_agentDescription:=JStr (agentDescription st)]>
             (<[k_services:=services]>
                (<[k_model:=JStr (model st)]>
                   (<[k_reasoningEffort:=
                        JStr (effort_string (reasoningEffort st))]> ∅))))).

Definition post_request (u : jsstring) (st : state) (services : json)
  : fetch_request :=
  {| url := u; method := lit "POST";
     content_type := lit "application/json";
     request_body := request_text st services |}.

(** [if (!res.ok) throw new Error(await res.text())]: the message of
    the error thrown for a reply that is not ok. *)
Definition not_ok_message (res : fetch_response) : option jsstring :=
  match read_text res with
  | inl m => m
  | inr t => Some t
  end.

Definition onPreviewJSON (st : state) : list event * state :=
  let st1 := setResult JNull (setError None (setBusy true st)) in
  match buildServices st with
  | inl m =>
      ([], setBusy false
             (setError (Some (message_or (Some m) (lit "Request failed"))) st1))
  | inr services =>
      let req := post_request (lit "/api/generate-python") st services in
      let failed m :=
        ([Fetched req],
         setBusy false (setError (Some (message_or m (lit "Request failed"))) st1))
      in
      match fetch req with
      | inl m => failed m
      | inr res =>
          if negb (ok res) then failed (not_ok_message res)
          else
            match read_text res with
            | inl m => failed m
            | inr t =>
                match JSON_parse t with
                | None => failed (Some syntax_message)
                | Some data => ([Fetched req], setBusy false (setResult data st1))
                end
            end
      end
  end.

Definition zip_name : jsstring := lit "a2a-python-server.zip".

Definition onDownloadZIP (st : state) : list event * state :=
  let st1 := setError None (setBusy true st) in
  match buildServices st with
  | inl m =>
      ([], setBusy false
             (setError (Some (message_or (Some m) (lit "Download failed"))) st1))
  | inr services =>
      let req := post_request (lit "/api/generate-python?zip=1") st services in
      let failed m :=
        ([Fetched req],
         setBusy false
           (setError (Some (message_or m (lit "Download failed"))) st1))
      in
      match fetch req with
      | inl m => failed m
      | inr res =>
          if negb (ok res) then failed (not_ok_message res)
          else
            match read_blob res with
            | inl m => failed m
            | inr blob =>
                let u := createObjectURL blob in
                ([Fetched req; ObjectURLCreated blob; AnchorAppended;
                  AnchorClicked u zip_name; AnchorRemoved; ObjectURLRevoked u],
                 setBusy false st1)
            end
      end
  end.

(** The button is disabled while a request runs or when the description
    is blank. *)
Definition button_disabled (st : state) : bool :=
  busy st || negb (nonempty (trim (agentDescription st))).

End Handlers.

End Page.

(** A browser that is offline: [fetch] rejects without a message. *)
Definition offline_fetch (r : Page.fetch_request)
  : option jsstring + Page.fetch_response := inl None.
Definition no_text (v : json) : jsstring := [].
Definition blob_url (blob : list N) : jsstring := lit "blob:1".

(** The first state of the page with extra services that are not JSON. *)
Definition broken_services_state : Page.state :=
  {| Page.agentDescription := lit "Echo agent that repeats user text.";
     Page.webSearch := false;
     Page.extraServices := lit "{oops";
     Page.model := lit "gpt-5";
     Page.reasoningEffort := Page.minimal;
     Page.busy := false;
     Page.result := JNull;
     Page.error := None |}.

(** * Properties *)

#[local] Open Scope nat_scope.

(** ** The two validators *)

Lemma keep_entry_spec f : keep_entry f = true <-> well_formed_entry f.
Proof.
  unfold keep_entry, well_formed_entry. split.
  - destruct f as [| | | |l|o]; simpl; try (rewrite ?andb_false_r; discriminate).
    destruct (o !! k_path) as [[| | |p| |]|] eqn:Hp; simpl; try discriminate.
    destruct (o !! k_content) as [[| | |c| |]|] eqn:Hc; simpl; try discriminate.
    intros _. by exists o, p, c.
  - intros (o & p & c & -> & Hp & Hc). simpl. by rewrite Hp, Hc.
Qed.

#[local] Instance well_formed_entry_dec f : Decision (well_formed_entry f).
Proof.
  refine (cast_if (decide (keep_entry f = true)));
    abstract (by rewrite <- keep_entry_spec).
Defined.

Lemma project_entry_well_formed f :
  well_formed_entry f -> generated_file (project_entry f).
Proof.
  intros (o & p & c & -> & Hp & Hc). exists p, c.
  unfold project_entry. simpl. by rewrite Hp, Hc.
Qed.

Lemma project_entry_generated f : generated_file f -> project_entry f = f.
Proof. intros (p & c & ->). reflexivity. Qed.

Lemma map_project_generated l :
  Forall generated_file l -> map project_entry l = l.
Proof.
  induction 1 as [|f l Hf _ IH]; [reflexivity|].
  cbn [map]. by rewrite (project_entry_generated _ Hf), IH.
Qed.

Lemma generated_file_well_formed f : generated_file f -> well_formed_entry f.
Proof.
  intros (p & c & ->). exists (<[k_path:=JStr p]> (<[k_content:=JStr c]> ∅)), p, c.
  split; [reflexivity|]. split; [apply lookup_insert_eq|].
  rewrite lookup_insert_ne by discriminate. apply lookup_insert_eq.
Qed.

(** The fields of a GeneratedFile are [path] and [content], no other. *)
Lemma generated_file_fields f :
  generated_file f ->
  exists o, f = JObj o /\ dom o = ({[k_path; k_content]} : gset jsstring).
Proof.
  intros (p & c & ->). eexists; split; [reflexivity|].
  rewrite !dom_insert_L, dom_empty_L. set_solver.
Qed.

(** Zod on one entry: the projection of a well-formed entry, an issue on
    any other value. *)
Lemma zparse_file f :
  zparse file_schema (Some f)
  = if keep_entry f then Some (project_entry f) else None.
Proof.
  unfold keep_entry, project_entry.
  destruct f as [| | | |l|o]; simpl; try (by rewrite ?andb_false_r).
  destruct (o !! k_path) as [[| | |p| |]|]; try reflexivity.
  destruct (o !! k_content) as [[| | |c| |]|]; reflexivity.
Qed.

Lemma mapM_zparse_file l :
  mapM (fun x => zparse file_schema (Some x)) l
  = if forallb keep_entry l then Some (map project_entry l) else None.
Proof.
  induction l as [|f l IH]; [reflexivity|].
  cbn [mapM forallb map]. rewrite zparse_file, IH.
  by destruct (keep_entry f), (forallb keep_entry l).
Qed.

(** What [StructuredA2AServerOutputSchema.parse] computes. *)
Lemma schema_parse_unfold v :
  schema_parse StructuredA2AServerOutputSchema v
  = match v with
    | JObj o =>
        match o !! k_files with
        | Some (JArr l) =>
            if forallb keep_entry l && (2 <=? List.length l)
            then inr (JObj (<[k_files:=JArr (map project_entry l)]> ∅))
            else inl ZodError
        | _ => inl ZodError
        end
    | _ => inl ZodError
    end.
Proof.
  unfold schema_parse, StructuredA2AServerOutputSchema.
  destruct v as [| | | |l|o]; try reflexivity.
  cbn [zparse]. fold file_schema.
  destruct (o !! k_files) as [[| | | |l|]|]; try reflexivity.
  cbn [zparse]. fold file_schema.
  change (mapM _ l) with (mapM (fun x => zparse file_schema (Some x)) l).
  rewrite mapM_zparse_file.
  destruct (forallb keep_entry l); [|reflexivity]. cbn.
  destruct (List.length l) as [|[|n]]; reflexivity.
Qed.

Lemma forallb_keep_entry l :
  forallb keep_entry l = true <-> Forall well_formed_entry l.
Proof.
  rewrite forallb_forall, Forall_forall.
  split; intros H f Hf; apply keep_entry_spec, H; by apply list_elem_of_In.
Qed.

Lemma filter_all_well_formed (l : list json) :
  Forall well_formed_entry l -> filter well_formed_entry l = l.
Proof.
  induction 1 as [|f l Hf _ IH]; [reflexivity|].
  rewrite filter_cons_True by done. by rewrite IH.
Qed.

Lemma filter_keep_entry (l : list json) :
  filter (fun f => keep_entry f = true) l = filter well_formed_entry l.
Proof.
  apply list_filter_iff. intros f. apply keep_entry_spec.
Qed.

(** What [coerceServerShape] computes, with the filter stated on
    [well_formed_entry]. *)
Lemma coerceServerShape_unfold v :
  coerceServerShape v
  = match v with
    | JObj o =>
        match o !! k_files with
        | Some (JArr l) =>
            let kept := filter well_formed_entry l in
            if 2 <=? List.length kept
            then inr (JObj (<[k_files:=JArr (map project_entry kept)]> ∅))
            else inl InvalidFilesArray
        | _ => inl InvalidFilesArray
        end
    | _ => inl InvalidFilesArray
    end.
Proof.
  unfold coerceServerShape. destruct v as [| | | |l|o]; try reflexivity.
  destruct (o !! k_files) as [[| | | |l|]|]; try reflexivity.
  cbv zeta. rewrite filter_keep_entry, !length_map. reflexivity.
Qed.

(** The filtering of [coerceServerShape]: of a [files] array it keeps
    exactly the well-formed entries, in their order, each reduced to its
    two fields; it fails only on their number. *)
Lemma coerceServerShape_filters o l :
  o !! k_files = Some (JArr l) ->
  let kept := filter well_formed_entry l in
  (2 <= List.length kept ->
   coerceServerShape (JObj o)
   = inr (JObj (<[k_files:=JArr (map project_entry kept)]> ∅)))
  /\ (List.length kept < 2 ->
      coerceServerShape (JObj o) = inl InvalidFilesArray).
Proof.
  intros Hl kept. rewrite coerceServerShape_unfold, Hl. fold kept. cbv zeta.
  split; intros H.
  - by apply Nat.leb_le in H as ->.
  - by apply Nat.leb_gt in H as ->.
Qed.

(** ** Strings: quoting and reading back *)

#[local] Open Scope N_scope.

Lemma hex_val_hex_digit d : d < 16 -> hex_val (hex_digit d) = Some d.
Proof.
  intros Hd. unfold hex_val, hex_digit.
  destruct (N.ltb_spec d 10).
  - replace ((48 <=? 48 + d) && (48 + d <=? 57)) with true
      by (symmetry; apply andb_true_iff; split; apply N.leb_le; lia).
    f_equal. lia.
  - replace ((48 <=? 87 + d) && (87 + d <=? 57)) with false
      by (symmetry; apply andb_false_iff; right; apply N.leb_gt; lia).
    replace ((97 <=? 87 + d) && (87 + d <=? 102)) with true
      by (symmetry; apply andb_true_iff; split; apply N.leb_le; lia).
    f_equal. lia.
Qed.

Lemma hex_digits_value c :
  c < 65536 ->
  4096 * (c / 4096 mod 16) + 256 * (c / 256 mod 16)
  + 16 * (c / 16 mod 16) + c mod 16 = c.
Proof.
  intros Hc.
  change 4096 with (16 * 16 * 16) at 2. change 256 with (16 * 16) at 2.
  rewrite <- !N.Div0.div_div.
  pose proof (N.div_mod c 16 ltac:(discriminate)).
  pose proof (N.div_mod (c / 16) 16 ltac:(discriminate)).
  pose proof (N.div_mod (c / 16 / 16) 16 ltac:(discriminate)).
  pose proof (N.div_mod (c / 16 / 16 / 16) 16 ltac:(discriminate)).
  pose proof (N.mod_lt c 16 ltac:(discriminate)).
  pose proof (N.mod_lt (c / 16) 16 ltac:(discriminate)).
  pose proof (N.mod_lt (c / 16 / 16) 16 ltac:(discriminate)).
  pose proof (N.mod_lt (c / 16 / 16 / 16) 16 ltac:(discriminate)).
  generalize dependent (c / 16 / 16 / 16 / 16).
  generalize dependent (c / 16 / 16 / 16 mod 16).
  generalize dependent (c / 16 / 16 / 16).
  generalize dependent (c / 16 / 16 mod 16).
  generalize dependent (c / 16 / 16).
  generalize dependent (c / 16 mod 16).
  generalize dependent (c / 16).
  generalize dependent (c mod 16).
  intros. lia.
Qed.

Lemma parse_chars_unicode_escape c rest :
  c < 65536 ->
  parse_chars (unicode_escape c ++ rest)
  = ('(str, r) ← parse_chars rest; Some (c :: str, r)).
Proof.
  intros Hc. unfold unicode_escape. cbn [app parse_chars N.eqb Pos.eqb].
  unfold hex4. rewrite !hex_val_hex_digit by (apply N.mod_lt; discriminate).
  cbn [mbind option_bind]. by rewrite hex_digits_value.
Qed.

Lemma escape_short_Some c e :
  escape_short c = Some e ->
  (e =? 117) = false /\ unescape e = Some c.
Proof.
  unfold escape_short.
  repeat (case_match;
          [match goal with
           | H : (c =? _) = true |- _ => apply N.eqb_eq in H as ->
           end; intros [= <-]; by vm_compute|]).
  discriminate.
Qed.

Lemma escape_short_None c :
  escape_short c = None -> (c =? 34) = false /\ (c =? 92) = false.
Proof.
  unfold escape_short.
  repeat (case_match; [discriminate|]). done.
Qed.

(** A character copied as it is reads back as itself. *)
Lemma parse_chars_raw c rest :
  (c =? 34) = false -> (c =? 92) = false -> (c <? 32) = false ->
  parse_chars (c :: rest)
  = ('(str, r) ← parse_chars rest; Some (c :: str, r)).
Proof. intros H1 H2 H3. cbn [parse_chars]. by rewrite H1, H2, H3. Qed.

Lemma surrogate_raw c :
  is_lead_surrogate c || is_trail_surrogate c = true ->
  (c =? 34) = false /\ (c =? 92) = false /\ (c <? 32) = false /\ c < 65536.
Proof.
  unfold is_lead_surrogate, is_trail_surrogate.
  rewrite orb_true_iff, !andb_true_iff, !N.leb_le.
  intros H. repeat split;
    first [apply N.eqb_neq | apply N.ltb_ge | idtac]; lia.
Qed.

(** Reading a quoted string gives the string back, whatever follows
    the closing quote. *)
Lemma parse_chars_quote s : forall rest,
  parse_chars (quote_chars s ++ 34 :: rest) = Some (s, rest).
Proof.
  induction s as [s IH] using (induction_ltof1 _ (@List.length N)).
  unfold ltof in IH. intros rest.
  destruct s as [|c r]; [reflexivity|].
  cbn [quote_chars].
  destruct (escape_short c) as [e|] eqn:Hesc.
  { apply escape_short_Some in Hesc as (He & Hun).
    cbn [app parse_chars N.eqb Pos.eqb]. rewrite He, Hun. cbn [mbind option_bind].
    rewrite IH by (simpl; lia). reflexivity. }
  apply escape_short_None in Hesc as [Hq Hb].
  destruct (N.ltb_spec c 32) as [Hlow|Hhigh].
  { rewrite <- app_assoc, parse_chars_unicode_escape by lia.
    rewrite IH by (simpl; lia). reflexivity. }
  assert (Hge : (c <? 32) = false) by (apply N.ltb_ge; lia).
  destruct (is_lead_surrogate c) eqn:Hlead.
  { destruct (surrogate_raw c) as (_ & _ & _ & Hc); [by rewrite Hlead|].
    destruct r as [|d r'].
    - rewrite parse_chars_unicode_escape by done. reflexivity.
    - destruct (is_trail_surrogate d) eqn:Htrail.
      + destruct (surrogate_raw d) as (Hq' & Hb' & Hge' & _);
          [by rewrite Htrail, orb_true_r|].
        cbn [app]. rewrite parse_chars_raw by done.
        rewrite parse_chars_raw by done.
        rewrite IH by (simpl; lia). reflexivity.
      + rewrite <- app_assoc, parse_chars_unicode_escape by done.
        rewrite IH by (simpl; lia). reflexivity. }
  destruct (is_trail_surrogate c) eqn:Htrail.
  { destruct (surrogate_raw c) as (_ & _ & _ & Hc);
      [by rewrite Htrail, orb_true_r|].
    rewrite <- app_assoc, parse_chars_unicode_escape by done.
    rewrite IH by (simpl; lia). reflexivity. }
  cbn [app]. rewrite parse_chars_raw by done.
  rewrite IH by (simpl; lia). reflexivity.
Qed.

(** ** White space *)

Lemma skip_ws_app w s :
  forallb is_json_ws w = true -> skip_ws (w ++ s) = skip_ws s.
Proof.
  induction w as [|c w IH]; [reflexivity|].
  cbn [forallb app skip_ws]. intros [-> Hw]%andb_true_iff. auto.
Qed.

Lemma skip_ws_stop c s : is_json_ws c = false -> skip_ws (c :: s) = c :: s.
Proof. intros H. cbn [skip_ws]. by rewrite H. Qed.

Lemma drop_white_app w s :
  forallb is_white w = true -> drop_white (w ++ s) = drop_white s.
Proof.
  induction w as [|c w IH]; [reflexivity|].
  cbn [forallb app drop_white]. intros [-> Hw]%andb_true_iff. auto.
Qed.

Lemma drop_white_stop c s : is_white c = false -> drop_white (c :: s) = c :: s.
Proof. intros H. cbn [drop_white]. by rewrite H. Qed.

(** ** Objects of strings: serializing and reading back *)

Lemma join_cons2 sep (x y : jsstring) l :
  join sep (x :: y :: l) = x ++ sep ++ join sep (y :: l).
Proof. reflexivity. Qed.

Lemma join_shift (f : jsstring * jsstring -> jsstring) l :
  l <> [] ->
  10 :: join [44; 10] (map f l) = join [44] (map (fun p => 10 :: f p) l).
Proof.
  induction l as [|p [|q l] IH]; [done|reflexivity|]. intros _.
  cbn [map] in *. rewrite !join_cons2. cbn [app]. f_equal.
  by rewrite <- IH.
Qed.

Lemma join_length (sep : jsstring) l :
  Forall (fun x : jsstring => (1 <= List.length x)%nat) l ->
  (List.length l <= List.length (join sep l))%nat.
Proof.
  induction 1 as [|x [|y l] Hx _ IH]; [done|simpl; lia|].
  rewrite join_cons2, !length_app. simpl in *. lia.
Qed.

(** Every serialization has the shape that [parse_members] reads. *)
Lemma JSON_stringify_shape space props :
  props <> [] ->
  exists w1 w2 w3,
    forallb is_json_ws w1 = true /\ forallb is_json_ws w2 = true
    /\ forallb is_json_ws w3 = true
    /\ JSON_stringify space props
       = 123 :: join [44] (map (member_text w1 w2) props) ++ w3 ++ [125].
Proof.
  intros Hne. unfold JSON_stringify.
  destruct props as [|p props]; [done|].
  destruct (repeat 32 (Nat.min space 10)) as [|g gap] eqn:Hgap.
  - exists [], [], []. done.
  - exists (10 :: g :: gap), [32], [10]. repeat split; try done.
    + rewrite <- Hgap. cbn [forallb]. clear. 
      induction (Nat.min space 10) as [|n IH]; [done|exact IH].
    + cbn [app]. f_equal.
      change (10 :: ?x ++ ?y) with ((10 :: x) ++ y). f_equal.
      by rewrite (join_shift (fun q => (g :: gap) ++ QuoteJSONString q.1
                                       ++ [58; 32] ++ QuoteJSONString q.2)).
Qed.

Lemma parse_value_string n w v rest :
  forallb is_json_ws w = true ->
  parse_value (S n) (w ++ QuoteJSONString v ++ rest) = Some (JStr v, rest).
Proof.
  intros Hw. cbn [parse_value]. rewrite skip_ws_app by done.
  unfold QuoteJSONString. cbn [app]. rewrite skip_ws_stop by done.
  cbn [N.eqb Pos.eqb]. rewrite <- app_assoc. cbn [app].
  by rewrite parse_chars_quote.
Qed.

Lemma parse_members_text value w1 w2 w3 :
  forallb is_json_ws w1 = true -> forallb is_json_ws w3 = true ->
  (forall v r, value (w2 ++ QuoteJSONString v ++ r) = Some (JStr v, r)) ->
  forall props k rest acc,
    props <> [] -> (List.length props <= k)%nat ->
    parse_members value k
      (join [44] (map (member_text w1 w2) props) ++ w3 ++ 125 :: rest) acc
    = Some (JObj (define_all props acc), rest).
Proof.
  intros Hw1 Hw3 Hvalue props.
  induction props as [|p props IH]; [done|]. intros k rest acc _ Hk.
  destruct k as [|k]; [simpl in Hk; lia|].
  assert (Hstep : forall tail,
    parse_members value (S k) (member_text w1 w2 p ++ tail) acc
    = match skip_ws tail with
      | d :: s5 =>
          if d =? 44 then parse_members value k s5 (<[p.1:=JStr p.2]> acc)
          else if d =? 125 then Some (JObj (<[p.1:=JStr p.2]> acc), s5)
          else None
      | [] => None
      end).
  { intros tail. unfold member_text. cbn [parse_members].
    rewrite <- !app_assoc, skip_ws_app by done.
    unfold QuoteJSONString at 1. cbn [app]. rewrite skip_ws_stop by done.
    cbn [N.eqb Pos.eqb]. rewrite <- app_assoc. cbn [app].
    rewrite parse_chars_quote. cbn [mbind option_bind].
    rewrite skip_ws_stop by done. cbn [N.eqb Pos.eqb].
    rewrite Hvalue. reflexivity. }
  destruct props as [|q props].
  - cbn [map join]. rewrite Hstep, skip_ws_app by done.
    rewrite skip_ws_stop by done. reflexivity.
  - cbn [map]. rewrite join_cons2, <- !app_assoc, Hstep. cbn [app].
    rewrite skip_ws_stop by done. cbn [N.eqb Pos.eqb].
    rewrite (IH k rest) by (done || simpl in *; lia). reflexivity.
Qed.

Lemma define_all_snoc props p acc :
  define_all (props ++ [p]) acc = <[p.1:=JStr p.2]> (define_all props acc).
Proof. unfold define_all. by rewrite fold_left_app. Qed.

(** Defining the properties of an object in any order of enumeration
    builds the object. *)
Lemma define_all_map_to_list (O : gmap jsstring jsstring) props :
  props ≡ₚ map_to_list O -> define_all props ∅ = JStr <$> O.
Proof.
  intros Hperm.
  assert (Hnodup : NoDup props.*1).
  { rewrite Hperm. apply NoDup_fst_map_to_list. }
  assert (HO : O = list_to_map props).
  { rewrite <- (list_to_map_to_list O). symmetry.
    by apply list_to_map_proper. }
  rewrite HO. clear HO Hperm O.
  induction props as [|p props IH] using rev_ind.
  - symmetry. apply fmap_empty.
  - rewrite define_all_snoc. rewrite fmap_app, NoDup_app in Hnodup.
    destruct Hnodup as (Hnd & Hnotin & _). rewrite IH by done.
    destruct p as [k v]. rewrite list_to_map_snoc.
    + by rewrite fmap_insert.
    + intros Hin. apply (Hnotin k Hin). simpl. left.
Qed.

(** [JSON.parse] reads a serialized object of strings back, compact or
    indented. *)
Lemma JSON_parse_stringify space props :
  JSON_parse (JSON_stringify space props) = Some (JObj (define_all props ∅)).
Proof.
  destruct props as [|p props]; [by vm_compute|].
  destruct (JSON_stringify_shape space (p :: props))
    as (w1 & w2 & w3 & Hw1 & Hw2 & Hw3 & ->); [done|].
  set (ms := map (member_text w1 w2) (p :: props)).
  assert (Hlen : (List.length (p :: props) <= List.length (join [44%N] ms))%nat).
  { unfold ms. rewrite <- (length_map (member_text w1 w2)) at 1.
    apply join_length, Forall_forall. intros x [y [-> _]]%list_elem_of_fmap.
    unfold member_text, QuoteJSONString. rewrite !length_app. simpl. lia. }
  unfold JSON_parse.
  set (L := List.length (123 :: join [44] ms ++ w3 ++ [125])).
  assert (HL : (List.length (join [44%N] ms) < L)%nat).
  { unfold L. cbn [List.length]. rewrite length_app. lia. }
  destruct L as [|n]; [lia|].
  cbn [parse_value]. rewrite skip_ws_stop by done. cbn [N.eqb Pos.eqb].
  assert (Hhead : exists c1 r1,
    skip_ws (join [44] ms ++ w3 ++ [125]) = c1 :: r1 /\ (c1 =? 125) = false).
  { unfold ms. cbn [map]. destruct (map (member_text w1 w2) props);
      [cbn [join]|rewrite join_cons2];
      unfold member_text, QuoteJSONString at 1;
      rewrite <- !app_assoc, skip_ws_app by done; cbn [app];
      rewrite skip_ws_stop by done; by eexists _, _. }
  destruct Hhead as (c1 & r1 & -> & ->).
  unfold ms.
  rewrite (parse_members_text (parse_value (S n)) w1 w2 w3 Hw1 Hw3)
    with (rest := []).
  - reflexivity.
  - intros v r. by apply parse_value_string.
  - done.
  - cbn [List.length] in *. lia.
Qed.

(** ** The fuel of [parse_value] is enough *)

#[local] Open Scope nat_scope.

Lemma skip_ws_length s : List.length (skip_ws s) <= List.length s.
Proof.
  induction s as [|c r IH]; [done|]. cbn [skip_ws].
  destruct (is_json_ws c); simpl; lia.
Qed.

Lemma parse_chars_length s : forall x r,
  parse_chars s = Some (x, r) -> List.length r < List.length s.
Proof.
  induction s as [s IH] using (induction_ltof1 _ (@List.length N)).
  unfold ltof in IH. intros x r. destruct s as [|c s]; [done|].
  cbn [parse_chars].
  destruct (c =? 34)%N; [intros [= _ <-]; simpl; lia|].
  destruct (c =? 92)%N.
  - destruct s as [|e s1]; [done|].
    destruct (e =? 117)%N.
    + destruct s1 as [|h1 [|h2 [|h3 [|h4 s2]]]]; try done.
      destruct (hex4 h1 h2 h3 h4); [|done]. cbn [mbind option_bind].
      destruct (parse_chars s2) as [[str rest]|] eqn:Hrec; [|done].
      intros [= _ <-]. apply IH in Hrec; simpl in *; lia.
    + destruct (unescape e); [|done]. cbn [mbind option_bind].
      destruct (parse_chars s1) as [[str rest]|] eqn:Hrec; [|done].
      intros [= _ <-]. apply IH in Hrec; simpl in *; lia.
  - destruct (c <? 32)%N; [done|].
    destruct (parse_chars s) as [[str rest]|] eqn:Hrec; [|done].
    intros [= _ <-]. apply IH in Hrec; simpl in *; lia.
Qed.

Lemma take_digits_length s ds r :
  take_digits s = (ds, r) -> List.length r + List.length ds = List.length s.
Proof.
  revert ds r. induction s as [|c s IH]; intros ds r.
  - by intros [= <- <-].
  - cbn [take_digits]. destruct (is_digit c); [|by intros [= <- <-]].
    destruct (take_digits s) as [ds' r'] eqn:Hrec. intros [= <- <-].
    specialize (IH _ _ eq_refl). simpl. lia.
Qed.

Lemma some_digits_length s ds r :
  some_digits s = Some (ds, r) -> List.length r < List.length s.
Proof.
  unfold some_digits. destruct (take_digits s) as [ds' r'] eqn:Htake.
  apply take_digits_length in Htake.
  destruct ds' as [|d ds']; [done|]. intros [= <- <-]. simpl in *. lia.
Qed.

Lemma strip_prefix_length p s r :
  strip_prefix p s = Some r -> List.length r + List.length p = List.length s.
Proof.
  revert s. induction p as [|a p IH]; intros [|b s]; cbn [strip_prefix];
    try done; try (by intros [= <-]).
  destruct (a =? b)%N; [|done]. intros H%IH. simpl. lia.
Qed.

Lemma parse_number_length s v r :
  parse_number s = Some (v, r) -> List.length r < List.length s.
Proof.
  unfold parse_number.
  set (sign := match s with
               | c :: r0 => if (c =? 45)%N then (true, r0) else (false, s)
               | [] => (false, s)
               end).
  assert (Hsign : List.length sign.2 <= List.length s).
  { unfold sign. destruct s as [|c s']; [done|].
    destruct (c =? 45)%N; simpl; lia. }
  destruct sign as [neg s1]. cbn [snd] in Hsign.
  destruct (parse_int_part s1) as [[ip s2]|] eqn:Hint; [|done].
  assert (List.length s2 < List.length s1).
  { unfold parse_int_part in Hint. destruct s1 as [|c s1']; [done|].
    destruct (c =? 48)%N; [injection Hint as <- <-; simpl; lia|].
    by apply some_digits_length in Hint. }
  cbn [mbind option_bind].
  destruct (parse_frac s2) as [[fp s3]|] eqn:Hfrac; [|done].
  assert (List.length s3 <= List.length s2).
  { unfold parse_frac in Hfrac. destruct s2 as [|c s2'].
    - by injection Hfrac as <- <-.
    - destruct (c =? 46)%N; [|by injection Hfrac as <- <-].
      apply some_digits_length in Hfrac. simpl. lia. }
  cbn [mbind option_bind].
  destruct (parse_exp s3) as [[ex s4]|] eqn:Hexp; [|done].
  assert (List.length s4 <= List.length s3).
  { unfold parse_exp in Hexp. destruct s3 as [|c s3'].
    - by injection Hexp as <- <-.
    - destruct ((c =? 101) || (c =? 69))%N; [|by injection Hexp as <- <-].
      destruct (parse_sign s3') as [neg' r1] eqn:Hsg.
      assert (List.length r1 <= List.length s3').
      { unfold parse_sign in Hsg. destruct s3' as [|x s3'']; 
          [by injection Hsg as <- <-|].
        destruct (x =? 45)%N; [injection Hsg as <- <-; simpl; lia|].
        destruct (x =? 43)%N; injection Hsg as <- <-; simpl; lia. }
      destruct (some_digits r1) as [[ds r2]|] eqn:Hds; [|done].
      apply some_digits_length in Hds. injection Hexp as <- <-. simpl. lia. }
  cbn [mbind option_bind]. intros [= <- <-]. lia.
Qed.

Lemma parse_literal_length s v r :
  parse_literal s = Some (v, r) -> List.length r < List.length s.
Proof.
  unfold parse_literal.
  destruct (strip_prefix (lit "true") s) eqn:H1.
  { intros [= <- <-]. apply strip_prefix_length in H1. simpl in H1. lia. }
  destruct (strip_prefix (lit "false") s) eqn:H2.
  { intros [= <- <-]. apply strip_prefix_length in H2. simpl in H2. lia. }
  destruct (strip_prefix (lit "null") s) eqn:H3.
  { intros [= <- <-]. apply strip_prefix_length in H3. simpl in H3. lia. }
  apply parse_number_length.
Qed.

Section Loops.

Variable value : jsstring -> option (json * jsstring).
Hypothesis value_length :
  forall s v r, value s = Some (v, r) -> List.length r < List.length s.

Lemma parse_members_length k : forall s acc v r,
  parse_members value k s acc = Some (v, r) ->
  List.length r < List.length s.
Proof.
  induction k as [|k IH]; [done|]. intros s acc v r.
  cbn [parse_members]. pose proof (skip_ws_length s) as Hs.
  destruct (skip_ws s) as [|q s1]; [done|].
  destruct (q =? 34)%N; [|done].
  destruct (parse_chars s1) as [[key s2]|] eqn:Hkey; [|done].
  apply parse_chars_length in Hkey. cbn [mbind option_bind].
  pose proof (skip_ws_length s2) as Hs2.
  destruct (skip_ws s2) as [|colon s3]; [done|].
  destruct (colon =? 58)%N; [|done].
  destruct (value s3) as [[x s4]|] eqn:Hval; [|done].
  apply value_length in Hval. cbn [mbind option_bind].
  pose proof (skip_ws_length s4) as Hs4.
  destruct (skip_ws s4) as [|d s5]; [done|].
  destruct (d =? 44)%N; [intros H%IH; simpl in *; lia|].
  destruct (d =? 125)%N; [|done]. intros [= _ <-]. simpl in *. lia.
Qed.

Lemma parse_elements_length k : forall s acc v r,
  parse_elements value k s acc = Some (v, r) ->
  List.length r < List.length s.
Proof.
  induction k as [|k IH]; [done|]. intros s acc v r.
  cbn [parse_elements].
  destruct (value s) as [[x s1]|] eqn:Hval; [|done].
  apply value_length in Hval. cbn [mbind option_bind].
  pose proof (skip_ws_length s1) as Hs1.
  destruct (skip_ws s1) as [|d s2]; [done|].
  destruct (d =? 44)%N; [intros H%IH; simpl in *; lia|].
  destruct (d =? 93)%N; [|done]. intros [= _ <-]. simpl in *. lia.
Qed.

(** A second value parser and a second bound give the same result,
    when the parsers agree below the length of the input and the
    bounds exceed it. *)
Variable value' : jsstring -> option (json * jsstring).

Lemma parse_members_fuel k : forall k' s acc,
  (forall s', List.length s' < List.length s -> value s' = value' s') ->
  List.length s < k -> List.length s < k' ->
  parse_members value k s acc = parse_members value' k' s acc.
Proof.
  induction k as [|k IH]; [intros; lia|]. intros [|k'] s acc Hagree Hk Hk';
    [lia|].
  cbn [parse_members]. pose proof (skip_ws_length s) as Hs.
  destruct (skip_ws s) as [|q s1]; [done|].
  destruct (q =? 34)%N; [|done].
  destruct (parse_chars s1) as [[key s2]|] eqn:Hkey; [|done].
  apply parse_chars_length in Hkey. cbn [mbind option_bind].
  pose proof (skip_ws_length s2) as Hs2.
  destruct (skip_ws s2) as [|colon s3]; [done|].
  destruct (colon =? 58)%N; [|done].
  rewrite <- Hagree by (simpl in *; lia).
  destruct (value s3) as [[x s4]|] eqn:Hval; [|done].
  apply value_length in Hval. cbn [mbind option_bind].
  pose proof (skip_ws_length s4) as Hs4.
  destruct (skip_ws s4) as [|d s5]; [done|].
  destruct (d =? 44)%N; [|done].
  apply IH; [|simpl in *; lia..].
  intros s' Hs'. apply Hagree. simpl in *. lia.
Qed.

Lemma parse_elements_fuel k : forall k' s acc,
  (forall s', List.length s' <= List.length s -> value s' = value' s') ->
  List.length s < k -> List.length s < k' ->
  parse_elements value k s acc = parse_elements value' k' s acc.
Proof.
  induction k as [|k IH]; [intros; lia|]. intros [|k'] s acc Hagree Hk Hk';
    [lia|].
  cbn [parse_elements]. rewrite <- Hagree by done.
  destruct (value s) as [[x s1]|] eqn:Hval; [|done].
  apply value_length in Hval. cbn [mbind option_bind].
  pose proof (skip_ws_length s1) as Hs1.
  destruct (skip_ws s1) as [|d s2]; [done|].
  destruct (d =? 44)%N; [|done].
  apply IH; [|simpl in *; lia..].
  intros s' Hs'. apply Hagree. simpl in *. lia.
Qed.

End Loops.

Lemma parse_value_length n : forall s v r,
  parse_value n s = Some (v, r) -> List.length r < List.length s.
Proof.
  induction n as [|n IH]; [done|]. intros s v r. cbn [parse_value].
  pose proof (skip_ws_length s) as Hs.
  destruct (skip_ws s) as [|c s1]; [done|].
  destruct (c =? 123)%N.
  { pose proof (skip_ws_length s1) as Hs1.
    destruct (skip_ws s1) as [|c1 r1]; [done|].
    destruct (c1 =? 125)%N; [intros [= _ <-]; simpl in *; lia|].
    intros H%(parse_members_length _ IH). simpl in *. lia. }
  destruct (c =? 91)%N.
  { pose proof (skip_ws_length s1) as Hs1.
    destruct (skip_ws s1) as [|c1 r1]; [done|].
    destruct (c1 =? 93)%N; [intros [= _ <-]; simpl in *; lia|].
    intros H%(parse_elements_length _ IH). simpl in *. lia. }
  destruct (c =? 34)%N.
  { destruct (parse_chars s1) as [[str rest]|] eqn:Hstr; [|done].
    apply parse_chars_length in Hstr. intros [= _ <-]. simpl in *. lia. }
  intros H%parse_literal_length. simpl in *. lia.
Qed.

(** Any two amounts of fuel above the length of the input give the same
    result: [parse_value] never stops for want of fuel in [JSON_parse]. *)
Lemma parse_value_fuel n : forall m s,
  List.length s < n -> List.length s < m -> parse_value n s = parse_value m s.
Proof.
  induction n as [|n IH]; [intros; lia|]. intros [|m] s Hn Hm; [lia|].
  cbn [parse_value]. pose proof (skip_ws_length s) as Hs.
  destruct (skip_ws s) as [|c s1]; [done|].
  destruct (c =? 123)%N.
  { destruct (skip_ws s1) as [|c1 r1]; [done|].
    destruct (c1 =? 125)%N; [done|].
    apply parse_members_fuel; [apply parse_value_length| |simpl in *; lia..].
    intros s' Hs'. apply IH; simpl in *; lia. }
  destruct (c =? 91)%N; [|done].
  destruct (skip_ws s1) as [|c1 r1]; [done|].
  destruct (c1 =? 93)%N; [done|].
  apply parse_elements_fuel; [apply parse_value_length| |simpl in *; lia..].
  intros s' Hs'. apply IH; simpl in *; lia.
Qed.

(** [JSON_parse] is [parse_value] with any amount of fuel above the
    length of the text. *)
Lemma JSON_parse_fuel text m :
  List.length text < m ->
  JSON_parse text
  = match parse_value m text with
    | Some (v, rest) =>
        match skip_ws rest with
        | [] => Some v
        | _ :: _ => None
        end
    | None => None
    end.
Proof.
  intros Hm. unfold JSON_parse.
  by rewrite (parse_value_fuel (S (List.length text)) m text) by lia.
Qed.

#[local] Open Scope N_scope.

(** ** [stripCodeFences] on a text in braces *)

Lemma rev_braced (mid : jsstring) :
  rev (123 :: mid ++ [125]) = 125 :: rev mid ++ [123].
Proof. cbn [rev]. by rewrite rev_app_distr. Qed.

Lemma strip_open_fence_brace s : strip_open_fence (123 :: s) = 123 :: s.
Proof. by destruct s as [|b [|c r]]. Qed.

Lemma strip_close_fence_brace s :
  strip_close_fence (s ++ [125]) = s ++ [125].
Proof.
  unfold strip_close_fence. rewrite rev_app_distr. cbn [rev app].
  by destruct (rev s) as [|b [|c r]].
Qed.

Lemma trim_braced mid w :
  forallb is_white w = true ->
  trim (123 :: (mid ++ [125]) ++ w) = 123 :: mid ++ [125].
Proof.
  intros Hw. unfold trim. rewrite drop_white_stop by done.
  change (123 :: (mid ++ [125]) ++ w) with ((123 :: mid ++ [125]) ++ w).
  rewrite rev_app_distr, drop_white_app.
  - rewrite rev_braced, drop_white_stop by done.
    by rewrite <- rev_braced, rev_involutive.
  - rewrite forallb_forall in *. intros c Hc. apply Hw. by apply in_rev.
Qed.

(** A text in braces is left as it is. *)
Lemma stripCodeFences_braced mid :
  stripCodeFences (123 :: mid ++ [125]) = 123 :: mid ++ [125].
Proof.
  unfold stripCodeFences. rewrite strip_open_fence_brace.
  change (123 :: mid ++ [125]) with ((123 :: mid) ++ [125]) at 1.
  rewrite strip_close_fence_brace. cbn [app].
  rewrite <- (app_nil_r (mid ++ [125])) at 1. by apply trim_braced.
Qed.

Lemma eq_nocase_j_not_white c : is_white c = true -> eq_nocase 106 c = false.
Proof.
  intros Hw. unfold eq_nocase.
  destruct (N.eqb_spec c 106) as [->|_]; [discriminate|].
  destruct (N.eqb_spec c (106 - 32)) as [->|_]; [discriminate|]. done.
Qed.

Lemma skip_json_tag_other c s : eq_nocase 106 c = false ->
  skip_json_tag (c :: s) = c :: s.
Proof. intros H. destruct s as [|? [|? [|? ?]]]; cbn; by rewrite ?H. Qed.

Lemma drop_white_skip_json_tag tag w s :
  json_tag tag = true -> forallb is_white w = true ->
  drop_white (skip_json_tag (tag ++ w ++ 123 :: s)) = 123 :: s.
Proof.
  intros Htag Hw.
  destruct tag as [|j [|s' [|o [|n [|? ?]]]]]; try discriminate.
  - cbn [app]. destruct w as [|c w].
    + cbn [app]. by rewrite skip_json_tag_other.
    + cbn [app forallb] in *. apply andb_true_iff in Hw as [Hc Hw].
      rewrite skip_json_tag_other by by apply eq_nocase_j_not_white.
      change (c :: w ++ 123 :: s) with ((c :: w) ++ 123 :: s).
      rewrite drop_white_app by (cbn; by rewrite Hc).
      by apply drop_white_stop.
  - cbn [app skip_json_tag]. cbn [json_tag] in Htag. rewrite Htag.
    rewrite drop_white_app by done. by apply drop_white_stop.
Qed.

(** A text in braces between code fences comes out bare. *)
Lemma stripCodeFences_fenced tag w1 w2 mid :
  json_tag tag = true ->
  forallb is_white w1 = true -> forallb is_white w2 = true ->
  stripCodeFences (fenced tag w1 w2 (123 :: mid ++ [125]))
  = 123 :: mid ++ [125].
Proof.
  intros Htag Hw1 Hw2. unfold stripCodeFences, fenced, fence.
  cbn [app strip_open_fence]. unfold backtick. cbn [N.eqb Pos.eqb andb].
  rewrite drop_white_skip_json_tag by done.
  unfold strip_close_fence.
  change (123 :: (mid ++ [125]) ++ w2 ++ [96; 96; 96])
    with ((123 :: mid ++ [125]) ++ w2 ++ [96; 96; 96]).
  rewrite !app_assoc, rev_app_distr. cbn [rev app]. unfold backtick.
  cbn [N.eqb Pos.eqb andb].
  change (rev ((mid ++ [125]) ++ w2) ++ [123])
    with (rev (123 :: (mid ++ [125]) ++ w2)).
  rewrite rev_involutive. by apply trim_braced.
Qed.

Lemma JSON_stringify_braces space props :
  exists mid, JSON_stringify space props = 123 :: mid ++ [125].
Proof.
  destruct props as [|p props]; [by exists []|].
  destruct (JSON_stringify_shape space (p :: props))
    as (w1 & w2 & w3 & _ & _ & _ & ->); [done|].
  eexists. by rewrite app_assoc.
Qed.

(** ** The fallback extraction *)

Lemma upto_last_close_None s :
  (forall a b, s = a ++ 125 :: b -> at_line_end b = false) ->
  upto_last_close s = None.
Proof.
  induction s as [|c r IH]; [done|]. intros H. cbn [upto_last_close].
  rewrite IH by (intros a b ->; by apply (H (c :: a))).
  destruct (N.eqb_spec c 125) as [->|_]; [|done].
  by rewrite (H [] r).
Qed.

Lemma upto_last_close_Some mid post :
  at_line_end post = true -> upto_last_close post = None ->
  upto_last_close (mid ++ 125 :: post) = Some (mid ++ [125]).
Proof.
  intros Hend Hpost. induction mid as [|c mid IH].
  - cbn [app upto_last_close]. by rewrite Hpost, Hend.
  - cbn [app upto_last_close]. by rewrite IH.
Qed.

Lemma match_brace_block_skip pre s :
  123 ∉ pre -> match_brace_block (pre ++ s) = match_brace_block s.
Proof.
  induction pre as [|c pre IH]; [done|]. intros Hpre.
  apply not_elem_of_cons in Hpre as [Hc Hpre]. cbn [app match_brace_block].
  destruct (N.eqb_spec c 123) as [->|_]; [done|]. auto.
Qed.

(** The match: from the first opening brace to the last closing brace
    that ends a line. *)
Lemma match_brace_block_spec pre mid post :
  123 ∉ pre -> at_line_end post = true ->
  (forall a b, post = a ++ 125 :: b -> at_line_end b = false) ->
  match_brace_block (pre ++ 123 :: mid ++ 125 :: post)
  = Some (123 :: mid ++ [125]).
Proof.
  intros Hpre Hend Hlast. rewrite match_brace_block_skip by done.
  cbn [match_brace_block N.eqb Pos.eqb].
  by rewrite upto_last_close_Some by auto using upto_last_close_None.
Qed.

(** No match without an opening brace followed by a closing brace that
    ends a line. *)
Lemma match_brace_block_None s :
  (forall pre mid post,
     s = pre ++ 123 :: mid ++ 125 :: post -> at_line_end post = false) ->
  match_brace_block s = None.
Proof.
  induction s as [|c r IH]; [done|]. intros H. cbn [match_brace_block].
  rewrite IH by (intros pre mid post ->; by apply (H (c :: pre) mid)).
  destruct (N.eqb_spec c 123) as [->|_]; [|done].
  rewrite upto_last_close_None; [done|].
  intros a b ->. by apply (H [] a).
Qed.

Lemma normalize_raw t1 t2 :
  stripCodeFences t1 = stripCodeFences t2 -> normalize t1 = normalize t2.
Proof. unfold normalize. by intros ->. Qed.

(** ** The output normalizer *)

Lemma normalize_stringify space props :
  normalize (JSON_stringify space props) = inr (JObj (define_all props ∅)).
Proof.
  unfold normalize. destruct (JSON_stringify_braces space props) as [mid Hmid].
  rewrite Hmid, stripCodeFences_braced, <- Hmid.
  by rewrite JSON_parse_stringify.
Qed.

(** C3: for an object [O] of strings, in whatever order [props] its
    properties are enumerated, normalizing [JSON.stringify(O)] gives [O]
    back, so the result has a [files] field exactly when [O] has; the
    indented serializations and the serializations wrapped in a leading
    code fence, tagged [json] or not, and a trailing code fence normalize
    to the same value. *)
Theorem normalizer_round_trip (O : gmap jsstring jsstring)
    (props : list (jsstring * jsstring)) :
  props ≡ₚ map_to_list O ->
  let parsed := JObj (JStr <$> O) in
  (forall space, normalize (JSON_stringify space props) = inr parsed)
  /\ (is_Some (get_prop parsed k_files) <-> is_Some (O !! k_files))
  /\ (forall space tag w1 w2,
        json_tag tag = true ->
        forallb is_white w1 = true -> forallb is_white w2 = true ->
        normalize (fenced tag w1 w2 (JSON_stringify space props)) = inr parsed).
Proof.
  intros Hperm parsed. unfold parsed.
  rewrite <- (define_all_map_to_list O props Hperm). repeat split.
  - intros space. apply normalize_stringify.
  - rewrite (define_all_map_to_list O props Hperm). cbn [get_prop].
    rewrite lookup_fmap. apply fmap_is_Some.
  - rewrite (define_all_map_to_list O props Hperm). cbn [get_prop].
    rewrite lookup_fmap. apply fmap_is_Some.
  - intros space tag w1 w2 Htag Hw1 Hw2.
    rewrite <- (normalize_stringify space props). apply normalize_raw.
    destruct (JSON_stringify_braces space props) as [mid ->].
    by rewrite stripCodeFences_fenced, stripCodeFences_braced.
Qed.

Lemma normalizer_round_trip_witness :
  normalize
    (fenced (lit "JSON") [10] [10]
       (JSON_stringify 2 [(lit "note", lit "a}"); (k_files, lit "none")]))
  = inr (JObj (<[k_files:=JStr (lit "none")]>
                 (<[lit "note":=JStr (lit "a}")]> ∅))).
Proof.
  pose proof (normalizer_round_trip
                (<[k_files:=lit "none"]> (<[lit "note":=lit "a}"]> ∅))
                [(lit "note", lit "a}"); (k_files, lit "none")]) as H.
  destruct H as (_ & _ & H).
  - vm_compute. apply perm_swap.
  - rewrite (H 2%nat (lit "JSON") [10] [10]) by reflexivity.
    vm_compute. reflexivity.
Defined.

(** C4, as stated, fails on commentary that follows the object on the
    same line: the closing brace does not end a line, nothing matches,
    and the text is rejected although the object before the commentary
    is valid. *)
Lemma trailing_commentary_same_line :
  JSON_parse payload_text = Some (files_object [entry_main; entry_readme])
  /\ normalize (payload_text ++ lit " Hope this helps!")
     = inl FailedToParseJSON.
Proof. split; vm_compute; reflexivity. Qed.

(** C4, amended: when the direct parse of the stripped text fails, the
    normalizer parses the substring from the first opening brace to the
    last closing brace that is followed by a line terminator or by the
    end of the text; commentary after the object is tolerated when it
    starts on a new line and none of its lines ends with a closing brace;
    a text without an opening brace followed by a closing brace at a line
    end fails with a NormalizationError. *)
Theorem normalizer_fallback (text : jsstring) :
  JSON_parse (stripCodeFences text) = None ->
  (forall pre mid post,
      stripCodeFences text = pre ++ 123 :: mid ++ 125 :: post ->
      123 ∉ pre -> at_line_end post = true ->
      (forall a b, post = a ++ 125 :: b -> at_line_end b = false) ->
      normalize text
      = match JSON_parse (123 :: mid ++ [125]) with
        | Some v => inr v
        | None => inl JSONSyntaxError
        end)
  /\ (forall mid lt commentary v,
        stripCodeFences text = (123 :: mid ++ [125]) ++ lt :: commentary ->
        is_line_terminator lt = true ->
        (forall a b, commentary = a ++ 125 :: b -> at_line_end b = false) ->
        JSON_parse (123 :: mid ++ [125]) = Some v ->
        normalize text = inr v)
  /\ ((forall pre mid post,
         stripCodeFences text = pre ++ 123 :: mid ++ 125 :: post ->
         at_line_end post = false) ->
      normalize text = inl FailedToParseJSON)
  /\ kind_of FailedToParseJSON = Some NormalizationError
  /\ kind_of JSONSyntaxError = Some NormalizationError.
Proof.
  intros Hfail.
  assert (Hblock : forall pre mid post,
      stripCodeFences text = pre ++ 123 :: mid ++ 125 :: post ->
      123 ∉ pre -> at_line_end post = true ->
      (forall a b, post = a ++ 125 :: b -> at_line_end b = false) ->
      normalize text
      = match JSON_parse (123 :: mid ++ [125]) with
        | Some v => inr v
        | None => inl JSONSyntaxError
        end).
  { intros pre mid post Hraw Hpre Hend Hlast. unfold normalize.
    rewrite Hfail, Hraw. by rewrite match_brace_block_spec. }
  split; [exact Hblock|]. split; [|split; [|done]].
  - intros mid lt commentary v Hraw Hlt Hlast Hv.
    rewrite (Hblock [] mid (lt :: commentary)), ?Hv; try done.
    + rewrite Hraw. cbn [app]. by rewrite <- app_assoc.
    + apply not_elem_of_nil.
    + intros [|c a] b; cbn [app].
      * intros [= -> _]. discriminate.
      * intros [= _ ->]. by apply (Hlast a).
  - intros Hnone. unfold normalize.
    by rewrite Hfail, match_brace_block_None.
Qed.

Lemma normalizer_fallback_witness :
  normalize (payload_text ++ [10] ++ lit "Hope this helps!")
  = inr (files_object [entry_main; entry_readme])
  /\ normalize (lit "Sorry, I cannot help.") = inl FailedToParseJSON.
Proof.
  split.
  - pose proof (normalizer_fallback
                  (payload_text ++ [10] ++ lit "Hope this helps!")) as H.
    destruct H as (_ & H & _); [vm_compute; reflexivity|].
    apply (H (removelast (tl payload_text)) 10 (lit "Hope this helps!")).
    + vm_compute. reflexivity.
    + reflexivity.
    + intros a b Hab.
      assert (Hin : 125 ∈ lit "Hope this helps!")
        by (rewrite Hab; apply elem_of_app; right; left).
      apply list_elem_of_In in Hin. vm_compute in Hin.
      repeat (destruct Hin as [Hin|Hin]; [discriminate|]). done.
    + vm_compute. reflexivity.
  - pose proof (normalizer_fallback (lit "Sorry, I cannot help.")) as H.
    destruct H as (_ & _ & H & _); [vm_compute; reflexivity|].
    apply H. intros pre mid post Hraw.
    assert (Hin : 123 ∈ stripCodeFences (lit "Sorry, I cannot help."))
      by (rewrite Hraw; apply elem_of_app; right; left).
    apply list_elem_of_In in Hin. vm_compute in Hin.
    repeat (destruct Hin as [Hin|Hin]; [discriminate|]). done.
Defined.

(** ** The pipeline *)

#[local] Open Scope nat_scope.

Lemma get_prop_files_object l : get_prop (files_object l) k_files = Some (JArr l).
Proof. apply lookup_insert_eq. Qed.


(** What the schema accepts is a GenerationResult. *)
Lemma schema_parse_generation_result v r :
  schema_parse StructuredA2AServerOutputSchema v = inr r ->
  exists l,
    get_prop v k_files = Some (JArr l) /\ Forall well_formed_entry l
    /\ r = files_object (map project_entry l) /\ generation_result r.
Proof.
  rewrite schema_parse_unfold.
  destruct v as [| | | |?|o]; try discriminate.
  destruct (o !! k_files) as [[| | | |l|]|] eqn:Hl; try discriminate.
  destruct (forallb keep_entry l) eqn:Hall; [|discriminate].
  destruct (Nat.leb_spec 2 (List.length l)) as [Hlen|]; [|discriminate].
  apply forallb_keep_entry in Hall. intros [= <-].
  exists l. repeat split; try done.
  exists (map project_entry l). split; [done|]. rewrite length_map.
  split; [done|]. apply Forall_fmap.
  eapply Forall_impl; [exact Hall|]. apply project_entry_well_formed.
Qed.

Lemma coerceServerShape_generation_result v r :
  coerceServerShape v = inr r ->
  exists l,
    get_prop v k_files = Some (JArr l)
    /\ r = files_object (map project_entry (filter well_formed_entry l))
    /\ generation_result r.
Proof.
  rewrite coerceServerShape_unfold.
  destruct v as [| | | |?|o]; try discriminate.
  destruct (o !! k_files) as [[| | | |l|]|] eqn:Hl; try discriminate.
  cbv zeta.
  destruct (Nat.leb_spec 2 (List.length (filter well_formed_entry l)))
    as [Hlen|]; [|discriminate].
  intros [= <-]. exists l. repeat split; try done.
  eexists. split; [done|]. rewrite length_map. split; [done|].
  apply Forall_fmap, Forall_forall. intros f [Hf _]%list_elem_of_filter.
  by apply project_entry_well_formed.
Qed.

(** C10: in a value accepted by the schema validation of the free-text
    path, and likewise by [coerceServerShape], every element of [files]
    has the fields [path] and [content] and no other: it is the input
    entry reduced to these two fields. *)
Theorem validated_entries_two_fields (v r : json) :
  schema_parse StructuredA2AServerOutputSchema v = inr r
  \/ coerceServerShape v = inr r ->
  exists l,
    get_prop v k_files = Some (JArr l)
    /\ r = files_object (map project_entry (filter well_formed_entry l))
    /\ Forall (fun f => generated_file f
                 /\ exists o, f = JObj o
                      /\ dom o = ({[k_path; k_content]} : gset jsstring))
         (map project_entry (filter well_formed_entry l))
    /\ Forall (fun f => get_prop (project_entry f) k_path = get_prop f k_path
                 /\ get_prop (project_entry f) k_content = get_prop f k_content)
         (filter well_formed_entry l).
Proof.
  intros H.
  assert (exists l, get_prop v k_files = Some (JArr l)
     /\ r = files_object (map project_entry (filter well_formed_entry l)))
    as (l & Hl & ->).
  { destruct H as [H|H].
    - apply schema_parse_generation_result in H as (l & Hl & Hall & -> & _).
      exists l. by rewrite filter_all_well_formed.
    - apply coerceServerShape_generation_result in H as (l & Hl & -> & _).
      by exists l. }
  exists l. repeat split; try done.
  - apply Forall_fmap, Forall_forall. intros f [Hf _]%list_elem_of_filter.
    cbn. split; [by apply project_entry_well_formed|].
    by apply generated_file_fields, project_entry_well_formed.
  - apply Forall_forall. intros f [(o & p & c & -> & Hp & Hc) _]%list_elem_of_filter.
    unfold project_entry, file_entry. cbn [get_prop]. rewrite Hp, Hc. cbn.
    split; [apply lookup_insert_eq|].
    rewrite lookup_insert_ne by done. apply lookup_insert_eq.
Qed.

Lemma validated_entries_two_fields_witness :
  exists l,
    get_prop (files_object [entry_main; entry_extra]) k_files = Some (JArr l)
    /\ files_object [entry_main; entry_readme]
       = files_object (map project_entry (filter well_formed_entry l))
    /\ Forall (fun f => generated_file f
                 /\ exists o, f = JObj o
                      /\ dom o = ({[k_path; k_content]} : gset jsstring))
         (map project_entry (filter well_formed_entry l))
    /\ Forall (fun f => get_prop (project_entry f) k_path = get_prop f k_path
                 /\ get_prop (project_entry f) k_content = get_prop f k_content)
         (filter well_formed_entry l).
Proof.
  apply validated_entries_two_fields. left. vm_compute. reflexivity.
Defined.









(** ** The route handler *)



(** The archive branch, as far as the handler decides it: one call of
    [zip.file] for each file of a GenerationResult, in the order of the
    sequence, with its [path] and its [content]; and a [Content-Length]
    that is the decimal length of the buffer sent.  Which entries the
    archive holds after these calls is the archive library's part. *)
Lemma add_files_generation_result (JSZip : Type)
    (zip_file : JSZip -> option json -> option json -> JSZip)
    (zip : JSZip) (fs : list json) :
  Forall generated_file fs ->
  add_files JSZip zip_file zip (files_object fs)
  = inr (fold_left
           (fun z f => zip_file z (get_prop f k_path) (get_prop f k_content))
           fs zip).
Proof.
  intros Hgen. unfold add_files. rewrite get_prop_files_object.
  revert zip. induction Hgen as [|f fs (p & c & ->) _ IH]; intros zip;
    [done|].
  cbn [add_entries fold_left file_entry]. apply IH.
Qed.

Lemma zip_response_length (content : list N) :
  payload (zip_response content) = BytesBody content
  /\ (lit "Content-Length", decimal (N.of_nat (List.length content)))
     ∈ headers (zip_response content).
Proof. split; [done|]. right. right. left. Qed.

(** ** The validators: the claims *)

(** C1, at a payload that mixes well-formed and malformed entries:
    [coerceServerShape] keeps the two well-formed entries in their
    order, but the validation the pipeline runs on the free-text path
    is [StructuredA2AServerOutputSchema.parse], which rejects the whole
    payload; [coerceServerShape] is never called. *)
Theorem mixed_payload_rejected_by_pipeline :
  normalize mixed_text
  = inr (files_object [entry_main; entry_broken; entry_readme])
  /\ coerceServerShape (files_object [entry_main; entry_broken; entry_readme])
     = inr (files_object [entry_main; entry_readme])
  /\ schema_parse StructuredA2AServerOutputSchema
       (files_object [entry_main; entry_broken; entry_readme])
     = inl ZodError
  /\ (generatePythonA2AServer [] show_string show_none
        (free_text_client mixed_text) echo_params).2
     = inl ZodError.
Proof. repeat split; vm_compute; reflexivity. Qed.

(** C6: with a [files] array that holds exactly one well-formed entry,
    validation fails with a SchemaError; with an array of two or more
    well-formed entries, however many, it succeeds and returns every
    entry in its place, entries of equal path included. *)
Theorem minimum_count_gate (o : gmap jsstring json) (l : list json) :
  o !! k_files = Some (JArr l) ->
  (List.length (filter well_formed_entry l) = 1 ->
   schema_parse StructuredA2AServerOutputSchema (JObj o) = inl ZodError
   /\ coerceServerShape (JObj o) = inl InvalidFilesArray
   /\ kind_of ZodError = Some SchemaError
   /\ kind_of InvalidFilesArray = Some SchemaError)
  /\ (Forall well_formed_entry l -> 2 <= List.length l ->
      schema_parse StructuredA2AServerOutputSchema (JObj o)
      = inr (files_object (map project_entry l))
      /\ coerceServerShape (JObj o) = inr (files_object (map project_entry l))
      /\ List.length (map project_entry l) = List.length l
      /\ (Forall generated_file l -> map project_entry l = l)).
Proof.
  intros Hl. rewrite schema_parse_unfold, coerceServerShape_unfold, Hl.
  cbv zeta. split.
  - intros Hone. rewrite Hone. repeat split; try reflexivity.
    destruct (forallb keep_entry l) eqn:Hall; [|reflexivity].
    apply forallb_keep_entry, filter_all_well_formed in Hall.
    rewrite Hall in Hone. by rewrite Hone.
  - intros Hall Hlen. rewrite (filter_all_well_formed _ Hall).
    apply forallb_keep_entry in Hall as ->.
    apply Nat.leb_le in Hlen as ->. repeat split.
    + apply length_map.
    + apply map_project_generated.
Qed.

Lemma minimum_count_gate_witness :
  schema_parse StructuredA2AServerOutputSchema (files_object [entry_main])
  = inl ZodError
  /\ schema_parse StructuredA2AServerOutputSchema
       (files_object [entry_main; entry_main])
     = inr (files_object [entry_main; entry_main]).
Proof.
  split.
  - apply (minimum_count_gate (<[k_files:=JArr [entry_main]]> ∅) [entry_main]);
      vm_compute; reflexivity.
  - pose proof (minimum_count_gate (<[k_files:=JArr [entry_main; entry_main]]> ∅)
                  [entry_main; entry_main] eq_refl) as [_ H].
    refine (proj1 (H _ _)).
    + repeat constructor; apply keep_entry_spec; reflexivity.
    + simpl; lia.
Defined.

(** C7: validating a GenerationResult returns it unchanged. *)
Theorem validator_idempotent (v : json) :
  generation_result v ->
  schema_parse StructuredA2AServerOutputSchema v = inr v
  /\ coerceServerShape v = inr v.
Proof.
  intros (fs & -> & Hlen & Hgen).
  assert (Hwf : Forall well_formed_entry fs)
    by (eapply Forall_impl; [exact Hgen|apply generated_file_well_formed]).
  rewrite schema_parse_unfold, coerceServerShape_unfold. unfold files_object.
  rewrite lookup_insert_eq. cbv zeta. rewrite (filter_all_well_formed _ Hwf).
  apply forallb_keep_entry in Hwf as ->.
  apply Nat.leb_le in Hlen as ->.
  by rewrite (map_project_generated _ Hgen).
Qed.

Lemma validator_idempotent_witness :
  schema_parse StructuredA2AServerOutputSchema
    (files_object [entry_main; entry_readme])
  = inr (files_object [entry_main; entry_readme])
  /\ coerceServerShape (files_object [entry_main; entry_readme])
     = inr (files_object [entry_main; entry_readme]).
Proof.
  apply validator_idempotent.
  exists [entry_main; entry_readme]. split; [reflexivity|]. split; [simpl; lia|].
  repeat constructor; eexists _, _; reflexivity.
Defined.

(** * Further properties *)

#[local] Open Scope N_scope.

(** ** More on [stripCodeFences] *)

Lemma drop_white_suffix s :
  exists w, s = w ++ drop_white s /\ forallb is_white w = true.
Proof.
  induction s as [|c s (w & Hs & Hw)]; [by exists []|].
  cbn [drop_white]. destruct (is_white c) eqn:Hc.
  - exists (c :: w). cbn [app forallb]. rewrite Hc, Hw. by rewrite <- Hs.
  - by exists [].
Qed.

Lemma drop_white_head s c :
  head (drop_white s) = Some c -> is_white c = false.
Proof.
  induction s as [|d s IH]; [done|]. cbn [drop_white].
  destruct (is_white d) eqn:Hd; [done|]. by intros [= <-].
Qed.

Lemma skip_json_tag_suffix s : exists pre, s = pre ++ skip_json_tag s.
Proof.
  destruct s as [|j [|s' [|o [|n r]]]]; try by exists [].
  cbn [skip_json_tag]. destruct (_ && _); [by exists [j; s'; o; n]|by exists []].
Qed.

Lemma strip_open_fence_suffix s : exists pre, s = pre ++ strip_open_fence s.
Proof.
  destruct s as [|a [|b [|c r]]]; try by exists [].
  cbn [strip_open_fence]. destruct (_ && _); [|by exists []].
  destruct (skip_json_tag_suffix r) as [p1 H1].
  destruct (drop_white_suffix (skip_json_tag r)) as (p2 & H2 & _).
  exists (a :: b :: c :: p1 ++ p2). cbn [app]. do 3 f_equal.
  by rewrite <- app_assoc, <- H2.
Qed.

Lemma strip_close_fence_prefix s : exists post, s = strip_close_fence s ++ post.
Proof.
  unfold strip_close_fence.
  destruct (rev s) as [|a [|b [|c r]]] eqn:Hrev;
    try (exists []; by rewrite app_nil_r).
  destruct (_ && _); [|exists []; by rewrite app_nil_r].
  exists [c; b; a]. rewrite <- (rev_involutive s), Hrev. cbn [rev].
  by rewrite <- !app_assoc.
Qed.

Lemma trim_infix s : exists pre post, s = pre ++ trim s ++ post.
Proof.
  unfold trim. destruct (drop_white_suffix s) as (w1 & H1 & _).
  destruct (drop_white_suffix (rev (drop_white s))) as (w2 & H2 & _).
  exists w1, (rev w2). rewrite <- rev_app_distr, <- H2, rev_involutive.
  exact H1.
Qed.

(** X1: what [stripCodeFences] returns is a contiguous part of its
    argument: it removes from both ends and never alters or adds a code
    unit. *)
Theorem stripCodeFences_infix (s : jsstring) :
  exists pre post, s = pre ++ stripCodeFences s ++ post.
Proof.
  unfold stripCodeFences.
  destruct (strip_open_fence_suffix s) as [p1 H1].
  destruct (strip_close_fence_prefix (strip_open_fence s)) as [q1 H2].
  destruct (trim_infix (strip_close_fence (strip_open_fence s)))
    as (p2 & q2 & H3).
  exists (p1 ++ p2), (q2 ++ q1).
  rewrite H1 at 1. rewrite H2 at 1. rewrite H3 at 1.
  by rewrite <- !app_assoc.
Qed.

Lemma head_rev {A} (l : list A) : head (rev l) = last l.
Proof. rewrite rev_alt. apply head_reverse. Qed.

Lemma last_rev {A} (l : list A) : last (rev l) = head l.
Proof. rewrite rev_alt. apply last_reverse. Qed.

(** X2: the result of [stripCodeFences] neither starts nor ends with
    white space. *)
Theorem stripCodeFences_trimmed (s : jsstring) :
  (forall c, head (stripCodeFences s) = Some c -> is_white c = false)
  /\ (forall c, last (stripCodeFences s) = Some c -> is_white c = false).
Proof.
  unfold stripCodeFences, trim.
  set (t := rev (drop_white (strip_close_fence (strip_open_fence s)))).
  assert (Hlast : forall c, last t = Some c -> is_white c = false).
  { intros c. unfold t. rewrite last_rev. apply drop_white_head. }
  split; intros c.
  - rewrite head_rev.
    destruct (drop_white_suffix t) as (w & Ht & _).
    destruct (drop_white t) as [|d r] eqn:Hd; [done|].
    intros Hc. apply Hlast. rewrite Ht.
    rewrite last_app. by rewrite Hc.
  - rewrite last_rev. apply drop_white_head.
Qed.

Lemma trim_body body w c d :
  head body = Some c -> is_white c = false ->
  last body = Some d -> is_white d = false ->
  forallb is_white w = true ->
  trim (body ++ w) = body.
Proof.
  intros Hhead Hc Hlast Hd Hw. unfold trim.
  destruct body as [|c' body']; [done|]. injection Hhead as ->.
  cbn [app]. rewrite drop_white_stop by done.
  change (c :: body' ++ w) with ((c :: body') ++ w).
  rewrite rev_app_distr, drop_white_app.
  - apply last_Some in Hlast as [l' Hl']. rewrite Hl', rev_app_distr.
    cbn [rev app]. rewrite drop_white_stop by done.
    change (d :: rev l') with (rev [d] ++ rev l').
    by rewrite <- rev_app_distr, rev_involutive.
  - rewrite forallb_forall in *. intros x Hx. apply Hw. by apply in_rev.
Qed.

Lemma strip_close_fence_fence s : strip_close_fence (s ++ fence) = s.
Proof.
  unfold strip_close_fence, fence. rewrite rev_app_distr. cbn [rev app].
  unfold backtick. cbn [N.eqb Pos.eqb andb]. apply rev_involutive.
Qed.

Lemma strip_close_fence_other s x :
  (x =? backtick) = false -> strip_close_fence (s ++ [x]) = s ++ [x].
Proof.
  intros Hx. unfold strip_close_fence. rewrite rev_app_distr. cbn [rev app].
  destruct (rev s) as [|b [|c r]]; try done. by rewrite Hx.
Qed.

Lemma strip_open_fence_other c s :
  (c =? backtick) = false -> strip_open_fence (c :: s) = c :: s.
Proof. intros Hc. destruct s as [|b [|d r]]; try done. cbn. by rewrite Hc. Qed.

Lemma white_not_backtick c : is_white c = true -> (c =? backtick) = false.
Proof.
  intros Hw. destruct (N.eqb_spec c backtick) as [->|]; [discriminate|done].
Qed.

Lemma drop_white_skip_tag tag w c s :
  json_tag tag = true -> forallb is_white w = true -> is_white c = false ->
  (tag = [] -> w = [] -> eq_nocase 106 c = false) ->
  drop_white (skip_json_tag (tag ++ w ++ c :: s)) = c :: s.
Proof.
  intros Htag Hw Hc Hj.
  destruct tag as [|j [|s' [|o [|n [|? ?]]]]]; try discriminate.
  - cbn [app]. destruct w as [|x w].
    + cbn [app]. rewrite skip_json_tag_other by auto. by apply drop_white_stop.
    + cbn [app forallb] in *. apply andb_true_iff in Hw as [Hx Hw].
      rewrite skip_json_tag_other by by apply eq_nocase_j_not_white.
      change (x :: w ++ c :: s) with ((x :: w) ++ c :: s).
      rewrite drop_white_app by (cbn; by rewrite Hx).
      by apply drop_white_stop.
  - cbn [app skip_json_tag]. cbn [json_tag] in Htag. rewrite Htag.
    rewrite drop_white_app by done. by apply drop_white_stop.
Qed.

(** X3: a text between an opening fence, tagged [json] or not, and a
    closing fence at the very end comes out as the text alone, whatever
    it holds, provided it neither starts nor ends with white space (and,
    right after an untagged fence, does not start with a [j]). *)
Theorem stripCodeFences_fenced_body (tag w1 w2 body : jsstring) (c d : N) :
  json_tag tag = true ->
  forallb is_white w1 = true -> forallb is_white w2 = true ->
  head body = Some c -> is_white c = false ->
  last body = Some d -> is_white d = false ->
  (tag = [] -> w1 = [] -> eq_nocase 106 c = false) ->
  stripCodeFences (fenced tag w1 w2 body) = body.
Proof.
  intros Htag Hw1 Hw2 Hhead Hc Hlast Hd Hj.
  unfold stripCodeFences, fenced. unfold fence at 1.
  destruct body as [|c' body']; [done|]. injection Hhead as ->.
  replace (strip_open_fence ([backtick; backtick; backtick] ++ tag ++ w1
                             ++ (c :: body') ++ w2 ++ fence))
    with ((c :: body') ++ w2 ++ fence)
    by (symmetry; apply (drop_white_skip_tag tag w1 c); done).
  rewrite app_assoc, strip_close_fence_fence.
  by apply (trim_body _ _ c d).
Qed.

Lemma stripCodeFences_fenced_body_witness :
  stripCodeFences (fenced (lit "Json") [10] [32; 10] (lit "[1, 2]"))
  = lit "[1, 2]".
Proof.
  apply (stripCodeFences_fenced_body _ _ _ _ 91 93); reflexivity || discriminate.
Defined.

(** X4: a closing fence that is followed by white space, such as a final
    line feed, is not removed: only the white space after it is. *)
Theorem stripCodeFences_keeps_fence_before_white
    (c : N) (body w : jsstring) :
  is_white c = false -> (c =? backtick) = false ->
  w <> [] -> forallb is_white w = true ->
  stripCodeFences (c :: body ++ fence ++ w) = c :: body ++ fence.
Proof.
  intros Hc Hb Hne Hw. unfold stripCodeFences.
  rewrite strip_open_fence_other by done.
  destruct (last w) as [x|] eqn:Hx; [|by apply last_None in Hx].
  apply last_Some in Hx as [w' ->].
  assert (is_white x = true).
  { rewrite forallb_app in Hw. apply andb_true_iff in Hw as [_ Hw].
    cbn in Hw. by rewrite andb_true_r in Hw. }
  replace (c :: body ++ fence ++ w' ++ [x])
    with ((c :: body ++ fence ++ w') ++ [x])
    by (cbn [app]; by rewrite <- !app_assoc).
  rewrite strip_close_fence_other by by apply white_not_backtick.
  replace ((c :: body ++ fence ++ w') ++ [x])
    with ((c :: body ++ fence) ++ (w' ++ [x]))
    by (cbn [app]; by rewrite <- !app_assoc).
  apply (trim_body _ _ c backtick); try done.
  change (c :: body ++ fence) with ((c :: body) ++ fence).
  by rewrite last_app.
Qed.

Lemma stripCodeFences_keeps_fence_before_white_witness :
  stripCodeFences (lit "{}" ++ [10] ++ fence ++ [10])
  = lit "{}" ++ [10] ++ fence.
Proof.
  apply (stripCodeFences_keeps_fence_before_white 123 (lit "}" ++ [10]) [10]);
    done.
Defined.

(** ** More on the fallback extraction *)

Lemma upto_last_close_None_inv s :
  upto_last_close s = None ->
  forall a b, s = a ++ 125 :: b -> at_line_end b = false.
Proof.
  induction s as [|c r IH]; intros Hnone a b Hs.
  - by destruct a.
  - cbn [upto_last_close] in Hnone.
    destruct (upto_last_close r) eqn:Hr; [done|].
    destruct a as [|x a]; cbn [app] in Hs; injection Hs as -> ->.
    + cbn [N.eqb Pos.eqb andb] in Hnone. by destruct (at_line_end b).
    + by apply (IH eq_refl a).
Qed.

Lemma upto_last_close_Some_inv s p :
  upto_last_close s = Some p ->
  exists mid post,
    s = mid ++ 125 :: post /\ p = mid ++ [125]
    /\ at_line_end post = true /\ upto_last_close post = None.
Proof.
  revert p. induction s as [|c r IH]; intros p Hp; [done|].
  cbn [upto_last_close] in Hp. destruct (upto_last_close r) as [q|] eqn:Hr.
  - injection Hp as <-.
    destruct (IH q eq_refl) as (mid & post & -> & -> & Hend & Hnone).
    by exists (c :: mid), post.
  - destruct (N.eqb_spec c 125) as [->|]; [|done].
    destruct (at_line_end r) eqn:Hend; [|done]. injection Hp as <-.
    by exists [], r.
Qed.

Lemma match_brace_block_no_close r :
  upto_last_close r = None -> match_brace_block r = None.
Proof.
  intros Hnone. apply match_brace_block_None. intros pre mid post ->.
  apply (upto_last_close_None_inv _ Hnone (pre ++ 123 :: mid)).
  by rewrite <- app_assoc.
Qed.

(** X5: the fallback match, when there is one, is the widest block: it
    starts at the first opening brace of the text and ends at the last
    closing brace that stands at the end of a line; and there is a match
    exactly when the text has such a pair. *)
Theorem match_brace_block_widest (s b : jsstring) :
  match_brace_block s = Some b <->
  exists pre mid post,
    s = pre ++ 123 :: mid ++ 125 :: post /\ (123 ∉ pre)
    /\ at_line_end post = true
    /\ (forall a c, post = a ++ 125 :: c -> at_line_end c = false)
    /\ b = 123 :: mid ++ [125].
Proof.
  split.
  - revert b. induction s as [|c r IH]; intros b Hb; [done|].
    cbn [match_brace_block] in Hb.
    destruct (N.eqb_spec c 123) as [->|Hc].
    + destruct (upto_last_close r) as [p|] eqn:Hr.
      * injection Hb as <-.
        apply upto_last_close_Some_inv in Hr
          as (mid & post & -> & -> & Hend & Hnone).
        exists [], mid, post. repeat split; try done.
        -- apply not_elem_of_nil.
        -- by apply upto_last_close_None_inv.
      * by rewrite match_brace_block_no_close in Hb.
    + destruct (IH b Hb) as (pre & mid & post & -> & Hpre & Hrest).
      exists (c :: pre), mid, post. split; [done|].
      split; [|done]. apply not_elem_of_cons. by split; [congruence|].
  - intros (pre & mid & post & -> & Hpre & Hend & Hlast & ->).
    by apply match_brace_block_spec.
Qed.

Lemma match_brace_block_infix s b :
  match_brace_block s = Some b -> exists pre post, s = pre ++ b ++ post.
Proof.
  revert b. induction s as [|c r IH]; intros b Hb; [done|].
  cbn [match_brace_block] in Hb.
  assert (Hrec : match_brace_block r = Some b ->
                 exists pre post, c :: r = pre ++ b ++ post).
  { intros (pre & post & ->)%IH. by exists (c :: pre), post. }
  destruct (c =? 123); [|auto].
  destruct (upto_last_close r) as [p|] eqn:Hr; [|auto].
  injection Hb as <-.
  apply upto_last_close_Some_inv in Hr as (mid & post & -> & -> & _).
  exists [], post. cbn [app]. by rewrite <- app_assoc.
Qed.

(** X6: a value returned by the normalizer is always what [JSON.parse]
    reads in a contiguous part of the model's text; nothing is repaired
    or made up. *)
Theorem normalize_sound (text : jsstring) (v : json) :
  normalize text = inr v ->
  exists pre piece post,
    text = pre ++ piece ++ post /\ JSON_parse piece = Some v.
Proof.
  unfold normalize.
  assert (exists pre post, text = pre ++ stripCodeFences text ++ post)
    as (pre & post & Htext).
  { unfold stripCodeFences.
    destruct (strip_open_fence_suffix text) as [p1 H1].
    destruct (strip_close_fence_prefix (strip_open_fence text)) as [q1 H2].
    destruct (trim_infix (strip_close_fence (strip_open_fence text)))
      as (p2 & q2 & H3).
    exists (p1 ++ p2), (q2 ++ q1).
    rewrite H1 at 1. rewrite H2 at 1. rewrite H3 at 1.
    by rewrite <- !app_assoc. }
  destruct (JSON_parse (stripCodeFences text)) as [parsed|] eqn:Hdirect.
  - intros [= <-]. by exists pre, (stripCodeFences text), post.
  - destruct (match_brace_block (stripCodeFences text)) as [m0|] eqn:Hm;
      [|done].
    destruct (JSON_parse m0) as [parsed|] eqn:Hparse; [|done].
    intros [= <-].
    apply match_brace_block_infix in Hm as (pre' & post' & Hraw).
    exists (pre ++ pre'), m0, (post' ++ post). split; [|done].
    rewrite Htext at 1. rewrite Hraw. by rewrite <- !app_assoc.
Qed.

Lemma normalize_sound_witness :
  exists pre piece post,
    lit "Sure:" ++ [10] ++ payload_text = pre ++ piece ++ post
    /\ JSON_parse piece = Some (files_object [entry_main; entry_readme]).
Proof.
  apply normalize_sound. vm_compute. reflexivity.
Defined.

(** ** Text around a serialized object *)

(** A serialized object is read up to its closing brace, whatever
    follows it. *)
Lemma parse_value_stringify_rest space props rest n :
  (List.length (JSON_stringify space props) <= n)%nat ->
  parse_value (S n) (JSON_stringify space props ++ rest)
  = Some (JObj (define_all props ∅), rest).
Proof.
  destruct props as [|p props].
  { intros Hn. cbn in Hn. destruct n as [|n]; [lia|]. reflexivity. }
  destruct (JSON_stringify_shape space (p :: props))
    as (w1 & w2 & w3 & Hw1 & Hw2 & Hw3 & ->); [done|].
  set (ms := map (member_text w1 w2) (p :: props)).
  assert (Hlen : (List.length (p :: props) <= List.length (join [44%N] ms))%nat).
  { unfold ms. rewrite <- (length_map (member_text w1 w2)) at 1.
    apply join_length, Forall_forall. intros x [y [-> _]]%list_elem_of_fmap.
    unfold member_text, QuoteJSONString. rewrite !length_app. simpl. lia. }
  intros Hn. cbn [List.length] in Hn. rewrite length_app in Hn.
  destruct n as [|n]; [lia|].
  cbn [app parse_value]. rewrite skip_ws_stop by done. cbn [N.eqb Pos.eqb].
  rewrite <- !app_assoc.
  assert (Hhead : exists c1 r1,
    skip_ws (join [44] ms ++ w3 ++ [125] ++ rest) = c1 :: r1
    /\ (c1 =? 125) = false).
  { unfold ms. cbn [map]. destruct (map (member_text w1 w2) props);
      [cbn [join]|rewrite join_cons2];
      unfold member_text, QuoteJSONString at 1;
      rewrite <- !app_assoc, skip_ws_app by done; cbn [app];
      rewrite skip_ws_stop by done; by eexists _, _. }
  destruct Hhead as (c1 & r1 & -> & ->).
  unfold ms. cbn [app].
  rewrite (parse_members_text (parse_value (S n)) w1 w2 w3 Hw1 Hw3).
  - reflexivity.
  - intros v r. by apply parse_value_string.
  - done.
  - cbn [List.length] in *. lia.
Qed.

Lemma JSON_parse_stringify_rest space props rest :
  JSON_parse (JSON_stringify space props ++ rest)
  = match skip_ws rest with
    | [] => Some (JObj (define_all props ∅))
    | _ :: _ => None
    end.
Proof.
  unfold JSON_parse. rewrite parse_value_stringify_rest; [done|].
  rewrite length_app. lia.
Qed.

(** X7: text that follows a serialized object does not prevent its
    recovery when it starts on a new line and no line of it ends with a
    closing brace: the object is returned, by the direct parse if the
    text is only JSON white space and by the fallback otherwise.  A closing
    fence left in place after a final line feed is such a text. *)
Theorem normalize_object_then_text (O : gmap jsstring jsstring)
    (props : list (jsstring * jsstring)) (space : nat) (text post : jsstring) :
  props ≡ₚ map_to_list O ->
  stripCodeFences text = JSON_stringify space props ++ post ->
  at_line_end post = true ->
  (forall a c, post = a ++ 125 :: c -> at_line_end c = false) ->
  normalize text = inr (JObj (JStr <$> O)).
Proof.
  intros Hperm Hraw Hend Hlast.
  rewrite <- (define_all_map_to_list O props Hperm).
  unfold normalize. rewrite Hraw, JSON_parse_stringify_rest.
  destruct (skip_ws post) as [|x r]; [done|].
  destruct (JSON_stringify_braces space props) as [mid Hmid].
  rewrite Hmid at 1.
  replace ((123 :: mid ++ [125]) ++ post) with ([] ++ 123 :: mid ++ 125 :: post)
    by (cbn [app]; f_equal; by rewrite <- app_assoc).
  rewrite match_brace_block_spec by (done || apply not_elem_of_nil).
  by rewrite <- Hmid, JSON_parse_stringify.
Qed.

Lemma normalize_object_then_text_witness :
  normalize (fence ++ lit "json" ++ [10]
             ++ JSON_stringify 0 [(lit "note", lit "a}")] ++ [10] ++ fence
             ++ [10])
  = inr (JObj (<[lit "note":=JStr (lit "a}")]> ∅)).
Proof.
  rewrite (normalize_object_then_text (<[lit "note":=lit "a}"]> ∅)
             [(lit "note", lit "a}")] 0 _ ([10] ++ fence)).
  - vm_compute. reflexivity.
  - vm_compute. reflexivity.
  - vm_compute. reflexivity.
  - reflexivity.
  - intros a c Hac.
    assert (Hin : 125 ∈ [10] ++ fence)
      by (rewrite Hac; apply elem_of_app; right; left).
    apply list_elem_of_In in Hin. vm_compute in Hin.
    repeat (destruct Hin as [Hin|Hin]; [discriminate|]). done.
Defined.

(** X8: two serialized objects in one reply are not told apart: the
    match runs from the first opening brace to the last closing brace,
    and the reply fails with the syntax error of [JSON.parse], whatever
    separates the two. *)
Theorem normalize_two_objects
    (props1 props2 : list (jsstring * jsstring)) (space1 space2 : nat)
    (sep : jsstring) :
  normalize (JSON_stringify space1 props1 ++ sep ++ JSON_stringify space2 props2)
  = inl JSONSyntaxError.
Proof.
  destruct (JSON_stringify_braces space1 props1) as [m1 H1].
  destruct (JSON_stringify_braces space2 props2) as [m2 H2].
  assert (Hfail : JSON_parse (JSON_stringify space1 props1 ++ sep
                              ++ JSON_stringify space2 props2) = None).
  { rewrite JSON_parse_stringify_rest.
    destruct (skip_ws (sep ++ JSON_stringify space2 props2)) eqn:Hskip;
      [|done].
    exfalso. clear -Hskip H2. rewrite H2 in Hskip.
    induction sep as [|c sep IH]; cbn [app skip_ws] in Hskip; [done|].
    destruct (is_json_ws c); [auto|done]. }
  assert (Hraw : JSON_stringify space1 props1 ++ sep
                 ++ JSON_stringify space2 props2
                 = 123 :: (m1 ++ 125 :: sep ++ 123 :: m2) ++ [125]).
  { rewrite H1, H2. cbn [app]. f_equal.
    do 3 (rewrite <- ?app_assoc; cbn [app]). reflexivity. }
  pose proof (stripCodeFences_braced (m1 ++ 125 :: sep ++ 123 :: m2)) as Hstrip.
  pose proof (match_brace_block_spec [] (m1 ++ 125 :: sep ++ 123 :: m2) []
                (not_elem_of_nil _) eq_refl) as Hm.
  cbn [app] in Hm. rewrite <- Hraw in Hstrip, Hm.
  unfold normalize. rewrite Hstrip, Hfail, Hm; [by rewrite Hfail|].
  by intros [|??] ?.
Qed.

(** ** More on the two validators *)

#[local] Open Scope nat_scope.

(** X9: the schema of the pipeline accepts exactly the payloads that
    [coerceServerShape] accepts and that hold no malformed entry, with
    the same result: it is [coerceServerShape] without the tolerance. *)
Theorem schema_is_strict_coerce (v r : json) :
  schema_parse StructuredA2AServerOutputSchema v = inr r <->
  coerceServerShape v = inr r
  /\ forall l, get_prop v k_files = Some (JArr l) -> Forall well_formed_entry l.
Proof.
  rewrite schema_parse_unfold, coerceServerShape_unfold.
  destruct v as [| | | |?|o]; try (split; [done|by intros [? _]]).
  cbn [get_prop].
  destruct (o !! k_files) as [[| | | |l|]|] eqn:Hl;
    try (split; [done|by intros [? _]]).
  cbv zeta. destruct (forallb keep_entry l) eqn:Hall.
  - apply forallb_keep_entry in Hall.
    rewrite (filter_all_well_formed _ Hall). cbn [andb].
    destruct (2 <=? List.length l); [|split; [done|by intros [? _]]].
    split; [intros H; split; [done|by intros ? [= <-]]|by intros [? _]].
  - cbn [andb]. split; [done|]. intros [_ H].
    specialize (H l eq_refl). apply forallb_keep_entry in H. congruence.
Qed.

(** X10: what either validator returns is accepted unchanged by both:
    validating twice is validating once. *)
Theorem validated_is_stable (v r : json) :
  schema_parse StructuredA2AServerOutputSchema v = inr r
  \/ coerceServerShape v = inr r ->
  schema_parse StructuredA2AServerOutputSchema r = inr r
  /\ coerceServerShape r = inr r.
Proof.
  intros H.
  assert (Hr : generation_result r).
  { destruct H as [H|H].
    - by apply schema_parse_generation_result in H as (? & _ & _ & _ & ?).
    - by apply coerceServerShape_generation_result in H as (? & _ & _ & ?). }
  destruct Hr as (fs & -> & Hlen & Hgen).
  assert (Hwf : Forall well_formed_entry fs)
    by (eapply Forall_impl; [exact Hgen|apply generated_file_well_formed]).
  rewrite schema_parse_unfold, coerceServerShape_unfold. unfold files_object.
  rewrite lookup_insert_eq. cbv zeta. rewrite (filter_all_well_formed _ Hwf).
  apply forallb_keep_entry in Hwf as ->.
  apply Nat.leb_le in Hlen as ->.
  by rewrite (map_project_generated _ Hgen).
Qed.

Lemma validated_is_stable_witness :
  schema_parse StructuredA2AServerOutputSchema
    (files_object [entry_main; entry_readme])
  = inr (files_object [entry_main; entry_readme])
  /\ coerceServerShape (files_object [entry_main; entry_readme])
     = inr (files_object [entry_main; entry_readme]).
Proof.
  apply (validated_is_stable
           (files_object [entry_main; entry_broken; entry_extra])).
  right. vm_compute. reflexivity.
Defined.

Lemma filter_filter_well_formed (l : list json) :
  filter well_formed_entry (filter well_formed_entry l)
  = filter well_formed_entry l.
Proof.
  apply filter_all_well_formed, Forall_forall.
  by intros f [Hf _]%list_elem_of_filter.
Qed.

(** X11: of the parsed value only the [files] array counts, for both
    validators: any other key at the top is ignored; and for
    [coerceServerShape] only the well-formed entries of that array. *)
Theorem validators_read_files_only (o : gmap jsstring json) (l : list json) :
  o !! k_files = Some (JArr l) ->
  schema_parse StructuredA2AServerOutputSchema (JObj o)
  = schema_parse StructuredA2AServerOutputSchema (files_object l)
  /\ coerceServerShape (JObj o) = coerceServerShape (files_object l)
  /\ coerceServerShape (files_object l)
     = coerceServerShape (files_object (filter well_formed_entry l)).
Proof.
  intros Hl. rewrite !schema_parse_unfold, !coerceServerShape_unfold.
  unfold files_object. rewrite Hl, !lookup_insert_eq. cbv zeta.
  by rewrite filter_filter_well_formed.
Qed.

Lemma validators_read_files_only_witness :
  coerceServerShape
    (JObj (<[lit "note":=JNull]>
             (<[k_files:=JArr [entry_main; entry_broken; entry_readme]]> ∅)))
  = coerceServerShape (files_object [entry_main; entry_broken; entry_readme]).
Proof.
  refine (proj1 (proj2 (validators_read_files_only _ _ _))).
  vm_compute. reflexivity.
Defined.

(** X12: a parsed value without a [files] array (not an object, the key
    missing, or its value not an array) is rejected by both validators,
    each with its own error. *)
Theorem validators_reject_without_files (v : json) :
  (forall l, get_prop v k_files <> Some (JArr l)) ->
  schema_parse StructuredA2AServerOutputSchema v = inl ZodError
  /\ coerceServerShape v = inl InvalidFilesArray.
Proof.
  intros Hno. rewrite schema_parse_unfold, coerceServerShape_unfold.
  destruct v as [| | | |?|o]; try done. cbn [get_prop] in Hno.
  destruct (o !! k_files) as [[| | | |l|]|]; try done. by destruct (Hno l).
Qed.

Lemma validators_reject_without_files_witness :
  schema_parse StructuredA2AServerOutputSchema
    (JArr [entry_main; entry_readme]) = inl ZodError
  /\ coerceServerShape (JArr [entry_main; entry_readme]) = inl InvalidFilesArray.
Proof. apply validators_reject_without_files. intros l. discriminate. Defined.

(** ** More on the pipeline *)

(** X13: an invocation calls the service once or twice, never more:
    [responses.parse] first, always; [responses.create] after it exactly
    when the structured call failed.  When the structured call gave a
    parsed value, that value is the result and no second call is made. *)
Theorem pipeline_calls sp ts sf (cl : client) (p : params) :
  let preq := parse_request sp ts sf p in
  let creq := create_request sp ts sf p in
  let out := generatePythonA2AServer sp ts sf cl p in
  (structured_failed cl preq = false
   /\ out.1 = [ResponsesParse preq]
   /\ exists parsed,
        responses_parse cl preq = Some (Some parsed) /\ out.2 = inr parsed)
  \/ (structured_failed cl preq = true
      /\ out.1 = [ResponsesParse preq; ResponsesCreate creq]).
Proof.
  intros preq creq out. unfold out, generatePythonA2AServer, structured_failed.
  fold preq.
  assert (Hlog : (free_text_path sp ts sf cl p).1 = [ResponsesCreate creq]).
  { unfold free_text_path. fold creq.
    destruct (responses_create cl creq) as [?|resp]; [done|].
    by destruct (nonempty (text_of resp)), (normalize (text_of resp)). }
  destruct (free_text_path sp ts sf cl p) as [log r]. cbn [fst] in Hlog.
  subst log.
  destruct (responses_parse cl preq) as [[parsed|]|]; [|by right..].
  destruct (truthy parsed); [|by right].
  left. repeat split. by exists parsed.
Qed.

Lemma pipeline_after_failure sp ts sf (cl : client) (p : params) :
  structured_failed cl (parse_request sp ts sf p) = true ->
  generatePythonA2AServer sp ts sf cl p
  = (ResponsesParse (parse_request sp ts sf p)
       :: (free_text_path sp ts sf cl p).1,
     (free_text_path sp ts sf cl p).2).
Proof.
  intros Hfailed. unfold generatePythonA2AServer, structured_failed in *.
  destruct (free_text_path sp ts sf cl p) as [log r].
  destruct (responses_parse cl _) as [[parsed|]|]; try done.
  apply negb_true_iff in Hfailed. by rewrite Hfailed.
Qed.

Lemma join_nonempty_nil (sep : jsstring) (l : list jsstring) :
  Forall (fun s => nonempty s = true) l -> join sep l = [] -> l = [].
Proof.
  intros Hall. destruct Hall as [|x l Hx Hl]; [done|].
  destruct x as [|c x]; [done|]. by destruct l.
Qed.

Lemma filter_nonempty_nil (l : list jsstring) :
  Forall (fun s => s = []) l -> filter (fun s => nonempty s = true) l = [].
Proof.
  induction 1 as [|x l -> _ IH]; [done|].
  by rewrite filter_cons_False.
Qed.

Lemma text_of_empty (resp : option create_response) :
  text_of resp = [] <->
  resp ≫= output_text = Some []
  \/ (resp ≫= output_text = None
      /\ Forall (fun c => fragment_value c = []) (contents_of resp)).
Proof.
  unfold text_of. destruct (resp ≫= output_text) as [s|].
  - split; [intros ->; by left|]. by intros [[= ->]|[? _]].
  - split.
    + intros Hjoin. right. split; [done|].
      apply join_nonempty_nil in Hjoin.
      * apply Forall_forall. intros c Hc.
        destruct (fragment_value c) as [|x s] eqn:Hv; [done|].
        assert (Hin : fragment_value c ∈
                  filter (fun s => nonempty s = true)
                    (map fragment_value (contents_of resp))).
        { apply list_elem_of_filter. split; [by rewrite Hv|].
          by apply list_elem_of_fmap_2. }
        rewrite Hjoin in Hin. by apply elem_of_nil in Hin.
      * apply Forall_forall. by intros s [? _]%list_elem_of_filter.
    + intros [[=]|[_ Hall]].
      rewrite filter_nonempty_nil; [done|]. apply Forall_forall.
      intros s [c [-> Hc]]%list_elem_of_fmap.
      rewrite Forall_forall in Hall. by apply Hall.
Qed.

(** X14: on the free-text path the invocation ends with "Empty model
    output" exactly when the reply's [output_text] is the empty string,
    or is absent while no content fragment carries text.  An empty
    [output_text] therefore hides whatever the fragments hold. *)
Theorem empty_model_output sp ts sf (cl : client) (p : params)
    (resp : option create_response) :
  structured_failed cl (parse_request sp ts sf p) = true ->
  responses_create cl (create_request sp ts sf p) = inr resp ->
  (generatePythonA2AServer sp ts sf cl p).2 = inl EmptyModelOutput <->
  resp ≫= output_text = Some []
  \/ (resp ≫= output_text = None
      /\ Forall (fun c => fragment_value c = []) (contents_of resp)).
Proof.
  intros Hfailed Hcreate. rewrite <- text_of_empty.
  rewrite (pipeline_after_failure sp ts sf cl p Hfailed). cbn [snd].
  unfold free_text_path. rewrite Hcreate.
  destruct (text_of resp) as [|c s] eqn:Htext; cbn [nonempty]; [done|].
  split; [|done].
  unfold normalize.
  destruct (JSON_parse (stripCodeFences _)) as [v|];
    [|destruct (match_brace_block _) as [m0|];
      [destruct (JSON_parse m0) as [v|]|]]; cbn [snd]; try done;
    unfold schema_parse; by destruct (zparse _ _).
Qed.

Lemma empty_model_output_witness :
  (generatePythonA2AServer [] show_string show_none hidden_text_client
     echo_params).2
  = inl EmptyModelOutput.
Proof.
  apply (empty_model_output [] show_string show_none hidden_text_client
           echo_params
           (Some {| output_text := Some [];
                    output :=
                      Some [Some {| content :=
                        Some [Some {| text := Some (TextString payload_text) |}]
                      |}] |})); [reflexivity..|].
  by left.
Defined.

(** ** More on the route handler *)

Section RouteProperties.

Variable sp : jsstring.
Variables ts sf : json -> jsstring.
Variable cl : client.
Variable JSZip : Type.
Variable new_JSZip : JSZip.
Variable zip_file : JSZip -> option json -> option json -> JSZip.
Variable generateAsync : JSZip -> jsstring + list N.

Let handler := POST sp ts sf cl JSZip new_JSZip zip_file generateAsync.
Let generate := generatePythonA2AServer sp ts sf cl.

Lemma POST_unfold (req : http_request) :
  let b := default (JObj ∅) (body req) in
  truthy_opt (get_prop b k_agentDescription) = true ->
  handler req
  = let '(log, r) := generate (request_params b) in
    match r with
    | inl e => (log, inl e)
    | inr res =>
        if negb (wants_zip req) then (log, inr (json_response res))
        else
          match add_files JSZip zip_file new_JSZip res with
          | inl e => (log, inl e)
          | inr zip =>
              match generateAsync zip with
              | inl reason => (log, inl (ArchiveError reason))
              | inr content => (log, inr (zip_response content))
              end
          end
    end.
Proof.
  intros b. unfold handler, POST, request_params, wants_zip, generate.
  subst b. generalize (default (JObj ∅) (body req)). intros b Htruthy.
  destruct b as [| | | | |o]; try (by cbn in Htruthy).
  cbv zeta. by rewrite Htruthy.
Qed.

(** X15: for a request with a description the handler makes the calls
    of the pipeline and no other; a failure of the pipeline goes through
    unchanged; and the result is answered as JSON unless the [zip]
    parameter is present and not empty ([?zip=] counts as absent). *)
Theorem POST_json_branch (req : http_request) :
  let b := default (JObj ∅) (body req) in
  truthy_opt (get_prop b k_agentDescription) = true ->
  (handler req).1 = (generate (request_params b)).1
  /\ (forall e, (generate (request_params b)).2 = inl e ->
        (handler req).2 = inl e)
  /\ (forall res, (generate (request_params b)).2 = inr res ->
        wants_zip req = false ->
        (handler req).2 = inr (json_response res)
        /\ status (json_response res) = 200%N
        /\ payload (json_response res) = JsonBody res).
Proof.
  intros b Htruthy. rewrite (POST_unfold req Htruthy). fold b.
  destruct (generate (request_params b)) as [log [e|res]]; cbn [fst snd].
  - split; [done|]. split; [by intros e0 [= <-]|by intros res [=]].
  - destruct (wants_zip req) eqn:Hzip; cbn [negb].
    + split; [|split; [by intros e [=]|by intros res' _ [=]]].
      destruct (add_files _ _ _ res) as [?|zip]; [done|].
      by destruct (generateAsync zip).
    + split; [done|]. split; [by intros e [=]|]. by intros res' [= <-] _.
Qed.

(** X16: when the archive is asked for and the pipeline returned a
    GenerationResult, the handler calls [zip.file] once for each file,
    in the order of the sequence, with its path and its content, and
    never fails on the way; it answers 200 with the buffer the library
    generates and a [Content-Length] that is the decimal length of that
    buffer, or fails with the library's error. *)
Theorem POST_zip_branch (req : http_request) (fs : list json) :
  let b := default (JObj ∅) (body req) in
  truthy_opt (get_prop b k_agentDescription) = true ->
  (generate (request_params b)).2 = inr (files_object fs) ->
  Forall generated_file fs ->
  wants_zip req = true ->
  match generateAsync (zip_all zip_file fs new_JSZip) with
  | inl reason => (handler req).2 = inl (ArchiveError reason)
  | inr content =>
      (handler req).2 = inr (zip_response content)
      /\ status (zip_response content) = 200%N
      /\ payload (zip_response content) = BytesBody content
      /\ (lit "Content-Length", decimal (N.of_nat (List.length content)))
         ∈ headers (zip_response content)
  end.
Proof.
  intros b Htruthy Hgen Hfiles Hzip. rewrite (POST_unfold req Htruthy).
  fold b. destruct (generate (request_params b)) as [log r].
  cbn [snd] in Hgen. subst r. rewrite Hzip. cbn [negb].
  rewrite (add_files_generation_result JSZip zip_file new_JSZip fs Hfiles).
  fold (zip_all zip_file fs new_JSZip).
  destruct (generateAsync _) as [reason|content]; [done|].
  repeat split. right. right. left.
Qed.

Lemma add_entries_null (zip : JSZip) (l : list json) :
  JNull ∈ l -> add_entries JSZip zip_file zip l = inl TypeError.
Proof.
  revert zip. induction l as [|f l IH]; intros zip Hin;
    [by apply elem_of_nil in Hin|].
  apply elem_of_cons in Hin as [<-|Hin]; [done|].
  destruct f; cbn [add_entries]; auto.
Qed.

(** X17: when the archive is asked for and the result, taken from the
    structured reply without validation, has no [files] to iterate or a
    null among them, the handler fails with a TypeError after the model
    was called; the same result without the [zip] parameter is answered
    as JSON. *)
Theorem POST_zip_unvalidated (req : http_request) (res : json) :
  let b := default (JObj ∅) (body req) in
  truthy_opt (get_prop b k_agentDescription) = true ->
  (generate (request_params b)).2 = inr res ->
  get_prop res k_files = None
  \/ (exists l, get_prop res k_files = Some (JArr l) /\ JNull ∈ l) ->
  (handler req).2
  = if wants_zip req then inl TypeError else inr (json_response res).
Proof.
  intros b Htruthy Hgen Hbad. rewrite (POST_unfold req Htruthy).
  fold b. destruct (generate (request_params b)) as [log r].
  cbn [snd] in Hgen. subst r.
  destruct (wants_zip req); cbn [negb snd]; [|done].
  unfold add_files.
  destruct Hbad as [->|(l & -> & Hin)]; [done|].
  by rewrite add_entries_null.
Qed.

End RouteProperties.

Lemma POST_json_branch_witness :
  (POST [] show_string show_none (free_text_client payload_text)
     (list (option json * option json)) [] list_zip_file list_generate
     {| body := Some echo_body; zip_query := Some [] |}).2
  = inr (json_response (files_object [entry_main; entry_readme])).
Proof.
  refine (proj1 (proj2 (proj2 (POST_json_branch [] show_string show_none
            (free_text_client payload_text) _ [] list_zip_file list_generate
            {| body := Some echo_body; zip_query := Some [] |} _)) _ _ _)).
  - vm_compute. reflexivity.
  - vm_compute. reflexivity.
  - reflexivity.
Defined.

Lemma POST_zip_branch_witness :
  (POST [] show_string show_none (free_text_client payload_text)
     (list (option json * option json)) [] list_zip_file list_generate
     {| body := Some echo_body; zip_query := Some (lit "1") |}).2
  = inr (zip_response [0%N; 0%N]).
Proof.
  refine (proj1 (POST_zip_branch [] show_string show_none
            (free_text_client payload_text) _ [] list_zip_file list_generate
            {| body := Some echo_body; zip_query := Some (lit "1") |}
            [entry_main; entry_readme] _ _ _ _)).
  - vm_compute. reflexivity.
  - vm_compute. reflexivity.
  - repeat constructor; eexists _, _; reflexivity.
  - reflexivity.
Defined.

Lemma POST_zip_unvalidated_witness :
  (POST [] show_string show_none (structured_client (JBool true))
     (list (option json * option json)) [] list_zip_file list_generate
     {| body := Some echo_body; zip_query := Some (lit "1") |}).2
  = inl TypeError.
Proof.
  apply (POST_zip_unvalidated [] show_string show_none
           (structured_client (JBool true)) _ [] list_zip_file list_generate
           {| body := Some echo_body; zip_query := Some (lit "1") |}
           (JBool true)).
  - vm_compute. reflexivity.
  - vm_compute. reflexivity.
  - by left.
Defined.

(** ** The page *)

(** X18: the services object always carries [web_search]; with blank
    extra services it carries nothing else; with extra services that
    parse, every property they spread is kept with its value, so that a
    [web_search] among them replaces the checkbox, which is used
    otherwise. *)
Theorem buildServices_result (st : Page.state) (v : json) :
  Page.buildServices st = inr v ->
  exists m : gmap jsstring json,
    v = JObj m /\ is_Some (m !! Page.k_web_search)
    /\ (nonempty (trim (Page.extraServices st)) = false ->
        m = {[Page.k_web_search := JBool (Page.webSearch st)]})
    /\ (forall extra,
          nonempty (trim (Page.extraServices st)) = true ->
          JSON_parse (Page.extraServices st) = Some extra ->
          (forall k x, Page.spread extra !! k = Some x -> m !! k = Some x)
          /\ (Page.spread extra !! Page.k_web_search = None ->
              m !! Page.k_web_search = Some (JBool (Page.webSearch st)))
          /\ dom m = dom (Page.spread extra) ∪ {[Page.k_web_search]}).
Proof.
  unfold Page.buildServices.
  destruct (nonempty (trim (Page.extraServices st))) eqn:Hblank.
  - destruct (JSON_parse (Page.extraServices st)) as [extra|] eqn:Hparse;
      [|done].
    intros [= <-]. eexists. split; [done|]. split; [|split; [done|]].
    + apply elem_of_dom. rewrite dom_union_L, dom_singleton_L. set_solver.
    + intros extra' _ [= <-]. repeat split.
      * intros k x Hk. by apply lookup_union_Some_l.
      * intros Hnone. rewrite lookup_union_r by done.
        apply lookup_singleton_eq.
      * by rewrite dom_union_L, dom_singleton_L.
  - intros [= <-]. eexists. split; [done|]. split; [|split; [done|done]].
    rewrite lookup_singleton_eq. by eexists.
Qed.

Lemma buildServices_result_witness :
  exists m : gmap jsstring json,
    JObj (<[Page.k_web_search:=JBool true]> (<[lit "x":=JNum 1 0]> ∅)) = JObj m
    /\ is_Some (m !! Page.k_web_search).
Proof.
  destruct (buildServices_result
              (Page.setBusy false
                 {| Page.agentDescription := lit "a"; Page.webSearch := false;
                    Page.extraServices := jlit "{'web_search':true,'x':1}";
                    Page.model := lit "gpt-5";
                    Page.reasoningEffort := Page.minimal;
                    Page.busy := false; Page.result := JNull;
                    Page.error := None |})
              (JObj (<[Page.k_web_search:=JBool true]> (<[lit "x":=JNum 1 0]> ∅))))
    as (m & Hm & Hws & _).
  - vm_compute. reflexivity.
  - by exists m.
Defined.

Section PageProperties.

Variable fetch : Page.fetch_request -> option jsstring + Page.fetch_response.
Variable stringify : json -> jsstring.
Variable createObjectURL : list N -> jsstring.
Variable syntax_message : jsstring.

Let preview := Page.onPreviewJSON fetch stringify syntax_message.
Let download := Page.onDownloadZIP fetch stringify createObjectURL.

Ltac page_simpl :=
  cbn [fst snd List.length Page.busy Page.error Page.result
       Page.agentDescription Page.webSearch Page.extraServices Page.model
       Page.reasoningEffort Page.setBusy Page.setError Page.setResult].

Lemma message_or_nonempty m fallback :
  fallback <> [] -> Page.message_or m fallback <> [].
Proof. by destruct m as [[|c s]|]. Qed.

(** X19: with extra services that are not blank and not JSON, neither
    handler sends a request: each ends with the error "Extra services
    must be valid JSON" and with [busy] false; the preview has cleared
    the result, the download has left it. *)
Theorem invalid_services_no_request (st : Page.state) :
  nonempty (trim (Page.extraServices st)) = true ->
  JSON_parse (Page.extraServices st) = None ->
  (preview st).1 = [] /\ (download st).1 = []
  /\ Page.error (preview st).2 = Some Page.invalid_services
  /\ Page.error (download st).2 = Some Page.invalid_services
  /\ Page.busy (preview st).2 = false /\ Page.busy (download st).2 = false
  /\ Page.result (preview st).2 = JNull
  /\ Page.result (download st).2 = Page.result st.
Proof.
  intros Hblank Hparse.
  unfold preview, download, Page.onPreviewJSON, Page.onDownloadZIP,
    Page.buildServices.
  rewrite Hblank, Hparse. done.
Qed.

(** X20: a preview sends at most one request and always ends with
    [busy] false and the form fields as they were.  It ends either with
    no error and the result set to the JSON read in an ok reply, or
    with a non-empty error message and the result cleared. *)
Theorem preview_outcome (st : Page.state) :
  let st' := (preview st).2 in
  (List.length (preview st).1 <= 1)%nat
  /\ Page.busy st' = false
  /\ (Page.agentDescription st', Page.webSearch st', Page.extraServices st',
      Page.model st', Page.reasoningEffort st')
     = (Page.agentDescription st, Page.webSearch st, Page.extraServices st,
        Page.model st, Page.reasoningEffort st)
  /\ ((Page.error st' = None
       /\ exists req res t,
            (preview st).1 = [Page.Fetched req] /\ fetch req = inr res
            /\ Page.ok res = true /\ Page.read_text res = inr t
            /\ JSON_parse t = Some (Page.result st'))
      \/ (exists m, Page.error st' = Some m /\ m <> []
                    /\ Page.result st' = JNull)).
Proof.
  unfold preview, Page.onPreviewJSON.
  destruct (Page.buildServices st) as [m|services].
  { page_simpl. repeat split; [lia|]. right. eexists. repeat split.
    by apply message_or_nonempty. }
  set (req := Page.post_request _ _ _ _).
  destruct (fetch req) as [m|res] eqn:Hfetch.
  { page_simpl. repeat split; [lia|]. right. eexists. repeat split.
    by apply message_or_nonempty. }
  destruct (Page.ok res) eqn:Hok; cbn [negb].
  2:{ page_simpl. repeat split; [lia|]. right. eexists. repeat split.
      by apply message_or_nonempty. }
  destruct (Page.read_text res) as [m|t] eqn:Hread.
  { page_simpl. repeat split; [lia|]. right. eexists. repeat split.
    by apply message_or_nonempty. }
  destruct (JSON_parse t) as [data|] eqn:Hparse.
  - page_simpl. repeat split; [lia|]. left. split; [done|]. by exists req, res, t.
  - page_simpl. repeat split; [lia|]. right. eexists. repeat split.
    by apply message_or_nonempty.
Qed.

(** X21: a download always ends with [busy] false and never touches the
    result of an earlier preview.  Either it ends without error, having
    sent one request, received an ok reply and offered its blob under
    the name [a2a-python-server.zip] through an object URL that it
    revoked afterwards; or it ends with a non-empty error message and
    has created no object URL and offered nothing. *)
Theorem download_outcome (st : Page.state) :
  let st' := (download st).2 in
  Page.busy st' = false
  /\ Page.result st' = Page.result st
  /\ ((Page.error st' = None
       /\ exists req res blob,
            fetch req = inr res /\ Page.ok res = true
            /\ Page.read_blob res = inr blob
            /\ Page.url req = lit "/api/generate-python?zip=1"
            /\ (download st).1
               = [Page.Fetched req; Page.ObjectURLCreated blob;
                  Page.AnchorAppended;
                  Page.AnchorClicked (createObjectURL blob)
                    (lit "a2a-python-server.zip");
                  Page.AnchorRemoved;
                  Page.ObjectURLRevoked (createObjectURL blob)])
      \/ (exists m, Page.error st' = Some m /\ m <> []
            /\ forall e, e ∈ (download st).1 -> exists req, e = Page.Fetched req)).
Proof.
  unfold download, Page.onDownloadZIP.
  destruct (Page.buildServices st) as [m|services].
  { page_simpl. repeat split. right. eexists. repeat split.
    - by apply message_or_nonempty.
    - by intros e ?%elem_of_nil. }
  set (req := Page.post_request _ _ _ _).
  assert (Hfail : forall e, e ∈ [Page.Fetched req] ->
                            exists r, e = Page.Fetched r).
  { intros e ->%list_elem_of_singleton. by eexists. }
  destruct (fetch req) as [m|res] eqn:Hfetch.
  { page_simpl. repeat split. right. eexists. repeat split; [|done].
    by apply message_or_nonempty. }
  destruct (Page.ok res) eqn:Hok; cbn [negb].
  2:{ page_simpl. repeat split. right. eexists. repeat split; [|done].
      by apply message_or_nonempty. }
  destruct (Page.read_blob res) as [m|blob] eqn:Hread.
  { page_simpl. repeat split. right. eexists. repeat split; [|done].
    by apply message_or_nonempty. }
  page_simpl. repeat split. left. split; [done|]. by exists req, res, blob.
Qed.

Lemma preview_events (st : Page.state) (services : json) :
  Page.buildServices st = inr services ->
  (preview st).1
  = [Page.Fetched
       (Page.post_request stringify (lit "/api/generate-python") st services)].
Proof.
  intros Hs. unfold preview, Page.onPreviewJSON. rewrite Hs.
  destruct (fetch _) as [?|res]; [done|].
  destruct (Page.ok res); cbn [negb]; [|done].
  destruct (Page.read_text res) as [?|t]; [done|]. by destruct (JSON_parse t).
Qed.

Lemma download_events (st : Page.state) (services : json) :
  Page.buildServices st = inr services ->
  forall r, Page.Fetched r ∈ (download st).1 ->
    r = Page.post_request stringify (lit "/api/generate-python?zip=1")
          st services.
Proof.
  intros Hs r. unfold download, Page.onDownloadZIP. rewrite Hs.
  assert (Hone : forall q, Page.Fetched r ∈ [Page.Fetched q] -> r = q).
  { intros q Hq%list_elem_of_singleton. by injection Hq. }
  destruct (fetch _) as [?|res]; [apply Hone|].
  destruct (Page.ok res); cbn [negb]; [|apply Hone].
  destruct (Page.read_blob res) as [?|blob]; [apply Hone|].
  cbn [fst]. intros Hin.
  apply elem_of_cons in Hin as [Hin|Hin]; [by injection Hin|].
  repeat (apply elem_of_cons in Hin as [Hin|Hin]; [discriminate|]).
  by apply elem_of_nil in Hin.
Qed.

(** X22: when both handlers send a request from the same state, the two
    requests have the same method, content type and body; they differ
    in the [zip=1] of the address only. *)
Theorem handlers_same_body (st : Page.state) (r1 r2 : Page.fetch_request) :
  Page.Fetched r1 ∈ (preview st).1 -> Page.Fetched r2 ∈ (download st).1 ->
  Page.request_body r1 = Page.request_body r2
  /\ Page.method r1 = Page.method r2
  /\ Page.content_type r1 = Page.content_type r2
  /\ Page.url r2 = Page.url r1 ++ lit "?zip=1".
Proof.
  destruct (Page.buildServices st) as [m|services] eqn:Hs.
  { unfold preview, Page.onPreviewJSON. rewrite Hs.
    by intros ?%elem_of_nil. }
  rewrite (preview_events st services Hs).
  intros H1%list_elem_of_singleton H2%(download_events st services Hs).
  injection H1 as ->. by subst r2.
Qed.

End PageProperties.

Lemma invalid_services_no_request_witness :
  (Page.onPreviewJSON offline_fetch no_text [] broken_services_state).1 = []
  /\ Page.error
       (Page.onDownloadZIP offline_fetch no_text blob_url
          broken_services_state).2
     = Some Page.invalid_services.
Proof.
  pose proof (invalid_services_no_request offline_fetch no_text blob_url []
                broken_services_state) as H.
  destruct H as (H1 & _ & _ & H2 & _); [vm_compute; reflexivity..|].
  by split.
Defined.

Lemma handlers_same_body_witness :
  Page.url (Page.post_request no_text (lit "/api/generate-python?zip=1")
              Page.initial (JObj {[Page.k_web_search := JBool false]}))
  = lit "/api/generate-python" ++ lit "?zip=1".
Proof.
  refine (proj2 (proj2 (proj2 (handlers_same_body offline_fetch no_text
            blob_url [] Page.initial
            (Page.post_request no_text (lit "/api/generate-python")
               Page.initial (JObj {[Page.k_web_search := JBool false]}))
            (Page.post_request no_text (lit "/api/generate-python?zip=1")
               Page.initial (JObj {[Page.k_web_search := JBool false]}))
            _ _)))).
  - vm_compute. left.
  - vm_compute. left.
Defined.


(** ** The defaults of the pipeline *)

Lemma or_else_or_else x d :
  truthy d = true -> or_else (Some (or_else x d)) d = or_else x d.
Proof.
  intros Hd. unfold or_else. destruct x as [v|]; [|by rewrite Hd].
  destruct (truthy v) eqn:Hv; [by rewrite Hv|by rewrite Hd].
Qed.

Lemma nullish_else_nullish_else x d :
  d <> JNull -> nullish_else (Some (nullish_else x d)) d = nullish_else x d.
Proof. intros Hd. destruct x as [[]|], d; done. Qed.

(** X23: the pipeline never rejects its parameters: a missing or empty
    description is replaced by "(none provided)", a missing or empty
    model by "gpt-5", a missing or empty effort by "minimal" and missing
    or null services by the empty object, and the invocation makes the
    same calls and gives the same outcome as with these values passed
    explicitly. *)
Theorem pipeline_defaults sp ts sf (cl : client) (p : params) :
  parse_request sp ts sf (with_defaults p) = parse_request sp ts sf p
  /\ create_request sp ts sf (with_defaults p) = create_request sp ts sf p
  /\ generatePythonA2AServer sp ts sf cl (with_defaults p)
     = generatePythonA2AServer sp ts sf cl p.
Proof.
  assert (Hprompt : userPrompt ts sf (with_defaults p) = userPrompt ts sf p).
  { unfold userPrompt, with_defaults.
    cbn [agentDescription services model reasoningEffort].
    by rewrite or_else_or_else, nullish_else_nullish_else. }
  assert (Hp : parse_request sp ts sf (with_defaults p)
               = parse_request sp ts sf p).
  { unfold parse_request. rewrite Hprompt. unfold with_defaults.
    cbn [agentDescription services model reasoningEffort].
    by rewrite !or_else_or_else. }
  assert (Hc : create_request sp ts sf (with_defaults p)
               = create_request sp ts sf p).
  { unfold create_request. rewrite Hprompt. unfold with_defaults.
    cbn [agentDescription services model reasoningEffort].
    by rewrite !or_else_or_else. }
  split; [done|]. split; [done|].
  unfold generatePythonA2AServer, free_text_path. by rewrite Hp, Hc.
Qed.
